(** * Pica numeric types: [Fix12P4] and [Float<M,E>]

    A shallow embedding of [src/video_core/pica_types.h] and the
    properties that its specification states about it.

    Integers of the C++ source are modelled as [Z] with every conversion
    to a fixed width written out; the float stored inside [Float<M,E>]
    is modelled by the Standard Library's [spec_float] at the binary32
    parameters (24 bits of precision, exponent bound 128), which follows
    IEEE 754 except that all NaNs are one value. *)

From Stdlib Require Import ZArith QArith Lia Bool List.
From Stdlib Require Import SpecFloat.
Import ListNotations.

Local Open Scope Z_scope.

(** ** Conversions between the integer types of the source *)

Module CInt.

(** [static_cast<int16_t>(z)] of an [int] value: reduction modulo 2^16
    into the signed range. *)
Definition cast_s16 (z : Z) : Z := (z + 32768) mod 65536 - 32768.

(** Conversion to [uint16_t]. *)
Definition cast_u16 (z : Z) : Z := z mod 65536.

(** Conversion to [u32] (arithmetic on [unsigned] wraps modulo 2^32). *)
Definition cast_u32 (z : Z) : Z := z mod 4294967296.

(** The values an [int16_t] can hold. *)
Definition in_s16 (z : Z) : Prop := -32768 <= z <= 32767.

(** The values a [u32] can hold. *)
Definition in_u32 (z : Z) : Prop := 0 <= z < 4294967296.

(** The C++ operator [/] on [int]: it truncates toward zero and has no
    result when the divisor is zero (the integer division fault). *)
Definition int_div (n d : Z) : option Z :=
  if d =? 0 then None else Some (Z.quot n d).

End CInt.

(** ** binary32 *)

Module F32.

Definition prec : Z := 24.
Definition emax : Z := 128.

Definition mul : spec_float -> spec_float -> spec_float := SFmul prec emax.
Definition div : spec_float -> spec_float -> spec_float := SFdiv prec emax.
Definition add : spec_float -> spec_float -> spec_float := SFadd prec emax.
Definition sub : spec_float -> spec_float -> spec_float := SFsub prec emax.

(** The float that an integer converts to. *)
Definition of_Z (n : Z) : spec_float := binary_normalize prec emax n 0 false.

(** [std::isnan]. *)
Definition isnan (x : spec_float) : bool :=
  match x with S754_nan => true | _ => false end.

Definition pos_zero : spec_float := S754_zero false.
Definition neg_zero : spec_float := S754_zero true.
Definition infinity : spec_float := S754_infinity false.
Definition nan : spec_float := S754_nan.

(** The literals [16.0f] and [0.5f]. *)
Definition sixteen : spec_float := S754_finite false 8388608 (-19).
Definition half : spec_float := S754_finite false 8388608 (-24).

(** [::round]: the nearest integer, halfway cases away from zero.  The
    value of a finite float is [m * 2^e]; infinities and NaN have no
    integer value. *)
Definition round (x : spec_float) : option Z :=
  match x with
  | S754_zero _ => Some 0
  | S754_finite s m e =>
      let mag :=
        match e with
        | Zneg p => let d := 2 ^ Zpos p in (Zpos m + d / 2) / d
        | _ => Zpos m * 2 ^ e
        end in
      Some (if s then - mag else mag)
  | _ => None
  end.

(** The float whose object representation is the 32-bit pattern [bits]
    (what [std::memcpy] from a [u32] into a [float] produces): bit 31 is
    the sign, bits 23..30 the biased exponent, bits 0..22 the fraction. *)
Definition bit_cast (bits : Z) : spec_float :=
  let s := Z.testbit bits 31 in
  let e := Z.land (Z.shiftr bits 23) 255 in
  let m := Z.land bits 8388607 in
  if e =? 0 then
    match m with
    | Zpos p => S754_finite s p (-149)
    | _ => S754_zero s
    end
  else if e =? 255 then
    if m =? 0 then S754_infinity s else S754_nan
  else
    match m + 8388608 with
    | Zpos p => S754_finite s p (e - 150)
    | _ => S754_nan
    end.

End F32.

(** ** Fix12P4: 12 integer bits, 4 fraction bits, two's complement *)

Module Fix12P4.
Import CInt.

Record t : Type := mk { value : Z }.

(** A value that the class can hold: the field is an [int16_t]. *)
Definition wf (x : t) : Prop := in_s16 (value x).

Definition FracMask : Z := cast_s16 15.
Definition IntMask : Z := cast_s16 (Z.lnot 15).

Definition FromInt (int_val : Z) (frac_val : Z) : t :=
  mk (cast_s16 (Z.lor (Z.land (int_val * 16) IntMask)
                      (Z.land frac_val FracMask))).

(** [static_cast<int16_t>] of a floating value is defined only when the
    value fits; [::round] of an infinity or a NaN has no integer value. *)
Definition FromFloat (float_val : spec_float) : option t :=
  match F32.round (F32.mul float_val F32.sixteen) with
  | Some z => if (-32768 <=? z) && (z <=? 32767) then Some (mk z) else None
  | None => None
  end.

Definition Zero : t := mk (cast_s16 0).

Definition Int (x : t) : Z := cast_s16 (Z.quot (Z.land (value x) IntMask) 16).
Definition Frac (x : t) : Z := cast_u16 (Z.land (value x) FracMask).

Definition Floor (x : t) : t := mk (cast_s16 (Z.land (value x) IntMask)).
Definition Ceil (x : t) : t := Floor (mk (cast_s16 (value x + FracMask))).

Definition Multiply (left right : Z) : Z :=
  cast_s16 (Z.quot (left * right) 16).

Definition Divide (left right : Z) : option Z :=
  option_map cast_s16 (int_div (left * 16) right).

Definition pos (x : t) : t := mk (cast_s16 (value x)).
Definition neg (x : t) : t := mk (cast_s16 (- value x)).
Definition add (x other : t) : t := mk (cast_s16 (value x + value other)).
Definition sub (x other : t) : t := mk (cast_s16 (value x - value other)).
Definition mul (x other : t) : t := mk (Multiply (value x) (value other)).
Definition div (x other : t) : option t :=
  option_map mk (Divide (value x) (value other)).

(** The compound assignments return the new contents of [*this]. *)
Definition add_assign (x other : t) : t := mk (cast_s16 (value x + value other)).
Definition sub_assign (x other : t) : t := mk (cast_s16 (value x - value other)).
Definition mul_assign (x other : t) : t := mk (Multiply (value x) (value other)).
Definition div_assign (x other : t) : option t :=
  option_map mk (Divide (value x) (value other)).

Definition lt (left right : t) : bool := value left <? value right.
Definition gt (left right : t) : bool := lt right left.
Definition ge (left right : t) : bool := negb (lt left right).
Definition le (left right : t) : bool := negb (lt right left).
Definition eq (left right : t) : bool := value left =? value right.
Definition ne (left right : t) : bool := negb (eq left right).

(** The real number that a raw value stands for. *)
Definition to_real (x : t) : Q := inject_Z (value x) / inject_Z 16.

End Fix12P4.


(** ** Float<M,E>: the Pica float types, stored as a binary32 *)

Module Float.
Import CInt.

Record t (M E : Z) : Type := mk { value : spec_float }.
Arguments mk {M E} _.
Arguments value {M E} _.

Definition FromFloat32 {M E : Z} (val : spec_float) : t M E := mk val.

Definition FromRaw (M E : Z) (hex : Z) : t M E :=
  let width := M + E + 1 in
  let bias := 128 - Z.shiftl 1 (E - 1) in
  let exponent := Z.land (Z.shiftr hex M) (Z.shiftl 1 E - 1) in
  let mantissa := Z.land hex (Z.shiftl 1 M - 1) in
  let hex' :=
    if negb (Z.land hex (Z.shiftl 1 (width - 1) - 1) =? 0) then
      cast_u32
        (Z.lor (Z.lor (cast_u32 (Z.shiftl (Z.shiftr hex (E + M)) 31))
                      (cast_u32 (Z.shiftl mantissa (23 - M))))
               (cast_u32 (Z.shiftl (exponent + bias) 23)))
    else
      cast_u32 (Z.shiftl (Z.shiftr hex (E + M)) 31) in
  mk (F32.bit_cast hex').

Definition Zero {M E : Z} : t M E := FromFloat32 F32.pos_zero.

Definition ToFloat32 {M E : Z} (x : t M E) : spec_float := value x.

(** The test that [operator*] and [operator*=] both make:
    [(this->value == 0.f && !isnan(flt.value)) ||
     (flt.value == 0.f && !isnan(this->value))]. *)
Definition forced_zero (this_value flt_value : spec_float) : bool :=
  (SFeqb this_value F32.pos_zero && negb (F32.isnan flt_value))
  || (SFeqb flt_value F32.pos_zero && negb (F32.isnan this_value)).

Definition mul {M E : Z} (this flt : t M E) : t M E :=
  if forced_zero (value this) (value flt) then Zero
  else FromFloat32 (F32.mul (ToFloat32 this) (ToFloat32 flt)).

Definition div {M E : Z} (this flt : t M E) : t M E :=
  FromFloat32 (F32.div (ToFloat32 this) (ToFloat32 flt)).

Definition add {M E : Z} (this flt : t M E) : t M E :=
  FromFloat32 (F32.add (ToFloat32 this) (ToFloat32 flt)).

Definition sub {M E : Z} (this flt : t M E) : t M E :=
  FromFloat32 (F32.sub (ToFloat32 this) (ToFloat32 flt)).

Definition neg {M E : Z} (this : t M E) : t M E :=
  FromFloat32 (SFopp (ToFloat32 this)).

Definition lt {M E : Z} (this flt : t M E) : bool :=
  SFltb (ToFloat32 this) (ToFloat32 flt).
Definition gt {M E : Z} (this flt : t M E) : bool :=
  SFltb (ToFloat32 flt) (ToFloat32 this).
Definition le {M E : Z} (this flt : t M E) : bool :=
  SFleb (ToFloat32 this) (ToFloat32 flt).
Definition ge {M E : Z} (this flt : t M E) : bool :=
  SFleb (ToFloat32 flt) (ToFloat32 this).
Definition eq {M E : Z} (this flt : t M E) : bool :=
  SFeqb (ToFloat32 this) (ToFloat32 flt).
Definition ne {M E : Z} (this flt : t M E) : bool :=
  negb (SFeqb (ToFloat32 this) (ToFloat32 flt)).

(** *** Compound assignment

    The compound operators write through [this] and read their operand
    through a reference that may name the same object, so they are
    modelled on a store of objects. *)

Definition ref : Type := nat.
Definition store (M E : Z) : Type := ref -> t M E.

(** [*r = v]. *)
Definition assign {M E : Z} (st : store M E) (r : ref) (v : t M E) : store M E :=
  fun r' => if Nat.eqb r' r then v else st r'.

(** [r->value = f]. *)
Definition set_value {M E : Z} (st : store M E) (r : ref) (f : spec_float)
  : store M E :=
  fun r' => if Nat.eqb r' r then mk f else st r'.

Definition mul_assign {M E : Z} (st : store M E) (this flt : ref) : store M E :=
  if forced_zero (value (st this)) (value (st flt)) then assign st this Zero
  else set_value st this (F32.mul (value (st this)) (ToFloat32 (st flt))).

Definition div_assign {M E : Z} (st : store M E) (this flt : ref) : store M E :=
  set_value st this (F32.div (value (st this)) (ToFloat32 (st flt))).

Definition add_assign {M E : Z} (st : store M E) (this flt : ref) : store M E :=
  set_value st this (F32.add (value (st this)) (ToFloat32 (st flt))).

Definition sub_assign {M E : Z} (st : store M E) (this flt : ref) : store M E :=
  set_value st this (F32.sub (value (st this)) (ToFloat32 (st flt))).

(** The three instantiations: float24, float20 and float16. *)
Definition float24 : Type := t 16 7.
Definition float20 : Type := t 12 7.
Definition float16 : Type := t 10 5.
Definition instances : list (Z * Z) := [(16, 7); (12, 7); (10, 5)].

(** *** The decoding as the specification words it *)

(** Bits [lo, lo + len) of [raw]. *)
Definition field (raw lo len : Z) : Z := (raw / 2 ^ lo) mod 2 ^ len.

Definition spec_bias (E : Z) : Z := 128 - 2 ^ (E - 1).
Definition spec_exponent (M E raw : Z) : Z := field raw M E.
Definition spec_mantissa (M raw : Z) : Z := field raw 0 M.
Definition spec_sign (M E raw : Z) : Z := field raw (M + E) 1.

(** [sign<<31 | (exponent+bias)<<23 | mantissa<<(23-M)]. *)
Definition spec_pattern (M E raw : Z) : Z :=
  Z.lor (Z.lor (Z.shiftl (spec_sign M E raw) 31)
               (Z.shiftl (spec_exponent M E raw + spec_bias E) 23))
        (Z.shiftl (spec_mantissa M raw) (23 - M)).

(** The classes of float values that the multiplication rule names. *)
Definition is_zero (x : spec_float) : bool :=
  match x with S754_zero _ => true | _ => false end.

End Float.


(** ** Dyadic float literals *)

Module Dyadic.

(** The binary32 nearest to [k * 2^e] (ties to even); for [|k| < 2^24]
    and [e] in the normal range it is [k * 2^e] itself. *)
Definition of_scaled (k e : Z) : spec_float :=
  binary_normalize F32.prec F32.emax k e false.

(** The float [k / 16], the real number that the raw value [k] stands
    for. *)
Definition sixteenths (k : Z) : spec_float := of_scaled k (-4).

(** The float [(2 * k + 1) / 32], halfway between [k / 16] and
    [(k + 1) / 16]. *)
Definition halfway (k : Z) : spec_float := of_scaled (2 * k + 1) (-5).

End Dyadic.

(** ** Enumerating a finite range of integers *)

Module Range.

(** The integers [lo, lo + 1, ..., lo + len - 1]. *)
Definition int_range (lo : Z) (len : nat) : list Z :=
  map (fun k => lo + Z.of_nat k) (seq 0 len).

(** The same integers, counted up from [lo]. *)
Fixpoint count_up (lo : Z) (len : nat) : list Z :=
  match len with
  | O => []
  | S len' => lo :: count_up (lo + 1) len'
  end.

End Range.

(** * Properties *)

(** ** Integer conversions and masks *)

Module CIntFacts.
Import CInt.

Lemma cast_s16_id (z : Z) : in_s16 z -> cast_s16 z = z.
Proof.
  unfold in_s16, cast_s16. intros H.
  rewrite Z.mod_small by lia. lia.
Qed.

Lemma cast_s16_range (z : Z) : in_s16 (cast_s16 z).
Proof.
  unfold in_s16, cast_s16.
  pose proof (Z.mod_pos_bound (z + 32768) 65536 ltac:(lia)). lia.
Qed.

Lemma cast_s16_congr (z : Z) : (cast_s16 z - z) mod 65536 = 0.
Proof.
  unfold cast_s16. Z.div_mod_to_equations. lia.
Qed.

Lemma cast_u32_id (z : Z) : in_u32 z -> cast_u32 z = z.
Proof. unfold in_u32, cast_u32. intros H. apply Z.mod_small. lia. Qed.

(** Masking with [~0xF] clears the four low bits. *)
Lemma land_m16 (z : Z) : Z.land z (-16) = 16 * (z / 16).
Proof.
  change (-16) with (Z.lnot (Z.ones 4)).
  rewrite <- Z.ldiff_land, Z.ldiff_ones_r by lia.
  rewrite Z.shiftr_div_pow2, Z.shiftl_mul_pow2 by lia.
  change (2 ^ 4) with 16. ring.
Qed.

(** Masking with [0xF] keeps the four low bits. *)
Lemma land_15 (z : Z) : Z.land z 15 = z mod 16.
Proof. change 15 with (Z.ones 4). rewrite Z.land_ones by lia. reflexivity. Qed.

(** Membership in an enumerated range. *)
Lemma in_int_range (lo : Z) (len : nat) (n : Z) :
  lo <= n < lo + Z.of_nat len -> In n (Range.int_range lo len).
Proof.
  intros H. unfold Range.int_range.
  apply in_map_iff. exists (Z.to_nat (n - lo)). split.
  - rewrite Z2Nat.id by lia. ring.
  - apply in_seq. lia.
Qed.

(** A boolean property checked on every element of a range holds at
    each integer of the range. *)
Lemma forall_int_range (P : Z -> bool) (lo : Z) (len : nat) :
  forallb P (Range.int_range lo len) = true ->
  forall n, lo <= n < lo + Z.of_nat len -> P n = true.
Proof.
  intros Hall n Hn.
  rewrite forallb_forall in Hall. apply Hall, in_int_range, Hn.
Qed.

End CIntFacts.

(** ** Fix12P4 *)

Module Fix12P4Facts.
Import CInt CIntFacts Fix12P4.

(** Membership of a literal raw value in the 16-bit range. *)
Ltac solve_wf := unfold wf, in_s16; simpl; lia.

Lemma FracMask_val : FracMask = 15.
Proof. reflexivity. Qed.

Lemma IntMask_val : IntMask = -16.
Proof. reflexivity. Qed.

(** [FromInt] with no fraction stores sixteen times its argument,
    reduced to sixteen bits. *)
Lemma FromInt_value (n : Z) : value (FromInt n 0) = cast_s16 (n * 16).
Proof.
  unfold FromInt. cbn [value].
  rewrite IntMask_val, land_m16, Z.land_0_l, Z.lor_0_r.
  f_equal. rewrite Z.div_mul by lia. ring.
Qed.

Lemma FromInt_in_range (n : Z) :
  -2048 <= n <= 2047 -> FromInt n 0 = mk (16 * n).
Proof.
  intros H. pose proof (FromInt_value n) as Hv.
  destruct (FromInt n 0) as [v]. simpl in Hv. subst v.
  f_equal. rewrite cast_s16_id by (unfold in_s16; lia). ring.
Qed.

(** Whatever [FromInt] stores is a multiple of sixteen that leaves room
    for the fraction mask. *)
Lemma FromInt_multiple (n : Z) :
  exists k, value (FromInt n 0) = 16 * k /\ -2048 <= k <= 2047.
Proof.
  rewrite FromInt_value. unfold cast_s16.
  exists ((n * 16 + 32768) mod 65536 / 16 - 2048).
  Z.div_mod_to_equations. lia.
Qed.

Lemma Floor_value (x : t) : value (Floor x) = cast_s16 (16 * (value x / 16)).
Proof. unfold Floor. cbn [value]. rewrite IntMask_val, land_m16. reflexivity. Qed.

(** C4, as stated, fails where the quotient does not fit the 16-bit raw
    field: raw 16384 divided by raw 8 has the [int] quotient
    [(16384 * 16) / 8 = 32768], and the result stored is raw -32768. *)
Lemma div_raw_formula_counterexample :
  wf (mk 16384) /\ wf (mk 8) /\ value (mk 8) <> 0
  /\ Z.quot (value (mk 16384) * 16) (value (mk 8)) = 32768
  /\ div (mk 16384) (mk 8) = Some (mk (-32768))
  /\ div (mk 16384) (mk 8)
     <> Some (mk (Z.quot (value (mk 16384) * 16) (value (mk 8)))).
Proof.
  unfold wf, in_s16. cbn [value].
  split; [lia |]. split; [lia |]. split; [lia |].
  split; [reflexivity |]. split; [reflexivity |].
  intros H. vm_compute in H. discriminate H.
Qed.

(** C4, amended.  Division computes [(rawA * 16) / rawB] in [int] with
    the quotient truncated toward zero (its magnitude is the floor of
    the magnitudes' quotient and its sign the product of the signs) and
    converts it to the 16-bit raw field, wrapping modulo 2^16; a
    quotient that fits the field is stored as it is.  With a raw divisor
    of zero the integer division has no result, and neither [Divide]
    nor [operator/] nor [operator/=] produces one: the fault is not
    caught anywhere in between. *)
Theorem div_truncates_or_faults (a b : t) :
  wf a -> wf b ->
  (value b <> 0 ->
     let q := Z.quot (value a * 16) (value b) in
     Divide (value a) (value b) = Some (cast_s16 q)
     /\ div a b = Some (mk (cast_s16 q))
     /\ div_assign a b = div a b
     /\ q = Z.sgn (value a * 16) * Z.sgn (value b)
            * (Z.abs (value a * 16) / Z.abs (value b))
     /\ (in_s16 q -> div a b = Some (mk q)))
  /\ (value a <> 0 -> value b = 0 ->
      int_div (value a * 16) (value b) = None
      /\ Divide (value a) (value b) = None
      /\ div a b = None
      /\ div_assign a b = None).
Proof.
  intros _ _. split.
  - intros Hb q. unfold div, div_assign, Divide, int_div.
    destruct (Z.eqb_spec (value b) 0) as [E | _]; [contradiction |].
    simpl. fold q. repeat split.
    + apply Z.quot_div. exact Hb.
    + intros Hq. rewrite (cast_s16_id q Hq). reflexivity.
  - intros _ Hb. unfold div, div_assign, Divide, int_div.
    rewrite Hb. simpl. repeat split.
Qed.

Lemma div_truncates_or_faults_witness :
  (div (mk (-7)) (mk 32) = Some (mk (-3)))
  /\ div (mk 16) (mk 0) = None.
Proof.
  pose proof (div_truncates_or_faults (mk (-7)) (mk 32)
                ltac:(solve_wf)
                ltac:(solve_wf)) as [Hq _].
  pose proof (div_truncates_or_faults (mk 16) (mk 0)
                ltac:(solve_wf)
                ltac:(solve_wf)) as [_ Hz].
  split.
  - assert (Hb : value (mk 32) <> 0) by (simpl; lia).
    destruct (Hq Hb) as (_ & _ & _ & _ & Hfit).
    apply Hfit. change (in_s16 (-3)). unfold in_s16. lia.
  - apply Hz; simpl; lia.
Defined.

(** The quotient is stored in sixteen bits: a quotient outside the range
    of the raw field is reduced modulo 2^16. *)
Example div_mul_store_16_bits :
  div (mk 32767) (mk 1) = Some (mk (-16))
  /\ mul (FromInt 64 0) (FromInt 64 0) = mk 0
  /\ mul (mk 32767) (mk 32767) = mk (-4096).
Proof. repeat split. Qed.

(** C5, as stated, fails where the quotient does not fit the 16-bit raw
    field: [FromInt(64) * FromInt(64)] has the [int] quotient
    [(1024 * 1024) / 16 = 65536], and the result stored is raw 0. *)
Lemma mul_raw_formula_counterexample :
  wf (FromInt 64 0)
  /\ Z.quot (value (FromInt 64 0) * value (FromInt 64 0)) 16 = 65536
  /\ mul (FromInt 64 0) (FromInt 64 0) = mk 0
  /\ value (mul (FromInt 64 0) (FromInt 64 0))
     <> Z.quot (value (FromInt 64 0) * value (FromInt 64 0)) 16.
Proof.
  split; [unfold wf, in_s16; vm_compute; split; discriminate |].
  split; [reflexivity |]. split; [reflexivity |].
  intros H. vm_compute in H. discriminate H.
Qed.

(** C5, amended.  Multiplication computes [(rawA * rawB) / 16] in [int]
    with the quotient truncated toward zero, never rounded to nearest,
    and converts it to the 16-bit raw field, wrapping modulo 2^16; a
    quotient that fits the field is stored as it is.
    [FromInt(1) * FromInt(1)] is [FromInt(1)];
    [FromInt(-1) * FromFloat(0.5)] is the raw value -8, an exact
    product; and a product that is not a multiple of sixteen loses its
    remainder toward zero, also when an operand is negative. *)
Theorem mul_truncates (a b : t) :
  wf a -> wf b ->
  let p := value a * value b in
  let q := Z.quot p 16 in
  value (mul a b) = cast_s16 q
  /\ mul_assign a b = mul a b
  /\ q = Z.sgn p * (Z.abs p / 16)
  /\ Z.abs (16 * q) <= Z.abs p < Z.abs (16 * q) + 16
  /\ (in_s16 q -> value (mul a b) = q)
  /\ mul (FromInt 1 0) (FromInt 1 0) = FromInt 1 0
  /\ (FromFloat F32.half = Some (mk 8)
      /\ mul (FromInt (-1) 0) (mk 8) = mk (-8))
  /\ (mul (mk 3) (mk 4) = mk 0 /\ mul (mk (-3)) (mk 4) = mk 0
      /\ mul (mk (-5)) (mk 5) = mk (-1)).
Proof.
  intros _ _ p q.
  assert (Hq : q = Z.sgn p * (Z.abs p / 16)).
  { unfold q. rewrite (Z.quot_div p 16) by lia.
    change (Z.sgn 16) with 1. change (Z.abs 16) with 16. ring. }
  repeat split; try reflexivity; try exact Hq.
  - rewrite Hq. pose proof (Z.abs_nonneg p).
    destruct (Z.sgn_spec p) as [[? ->] | [[? ->] | [? ->]]];
      Z.div_mod_to_equations; lia.
  - rewrite Hq. pose proof (Z.abs_nonneg p).
    destruct (Z.sgn_spec p) as [[? ->] | [[? ->] | [? ->]]];
      Z.div_mod_to_equations; lia.
  - intros Hr. unfold mul, Multiply. simpl. fold p q. apply cast_s16_id, Hr.
Qed.

Lemma mul_truncates_witness :
  value (mul (mk (-3)) (mk 4)) = 0.
Proof.
  pose proof (mul_truncates (mk (-3)) (mk 4)
                ltac:(solve_wf)
                ltac:(solve_wf)) as H.
  cbv zeta in H. destruct H as (_ & _ & _ & _ & H & _).
  apply H. change (in_s16 0). unfold in_s16. lia.
Defined.

Lemma to_real_lt (a b : t) : (to_real a < to_real b)%Q <-> value a < value b.
Proof. unfold to_real, Qlt, Qdiv, Qmult, Qinv. simpl. lia. Qed.

Lemma to_real_eq (a b : t) : (to_real a == to_real b)%Q <-> value a = value b.
Proof. unfold to_real, Qeq, Qdiv, Qmult, Qinv. simpl. lia. Qed.

(** C6.  [a < b], the comparison of the signed raw values, holds exactly
    when the real number [rawA/16] is less than [rawB/16]; with
    [operator==] it is a strict total order: irreflexive, transitive,
    and any two values are related or equal. *)
Theorem lt_matches_real_order (a b : t) :
  (lt a b = true <-> (to_real a < to_real b)%Q)
  /\ (eq a b = true <-> (to_real a == to_real b)%Q)
  /\ (le a b = true <-> (to_real a <= to_real b)%Q)
  /\ lt a a = false
  /\ (forall c, lt a b = true -> lt b c = true -> lt a c = true)
  /\ (lt a b = true \/ eq a b = true \/ lt b a = true)
  /\ (lt a b = true -> lt b a = false).
Proof.
  unfold le, lt, eq. repeat split.
  - intros H. apply to_real_lt. lia.
  - intros H. apply to_real_lt in H. lia.
  - intros H. apply to_real_eq. lia.
  - intros H. apply to_real_eq in H. lia.
  - intros H. apply Qnot_lt_le. intros C. apply to_real_lt in C.
    destruct (Z.ltb_spec (value b) (value a)); [discriminate | lia].
  - intros H. destruct (Z.ltb_spec (value b) (value a)) as [C | C];
      [| reflexivity].
    apply to_real_lt in C. apply Qlt_not_le in C. contradiction.
  - apply Z.ltb_irrefl.
  - intros c H1 H2. lia.
  - destruct (Z.lt_trichotomy (value a) (value b)) as [H | [H | H]];
      [left | right; left | right; right]; lia.
  - intros H. lia.
Qed.

Lemma lt_matches_real_order_witness :
  lt (mk (-32768)) (mk 32767) = true
  /\ (to_real (mk (-32768)) < to_real (mk 32767))%Q.
Proof.
  split; [reflexivity |].
  apply (proj1 (proj1 (lt_matches_real_order (mk (-32768)) (mk 32767)))).
  reflexivity.
Defined.

(** C7, as the specification words it, fails: [FromFloat] already
    multiplies by sixteen, so at [n = 1] the float [16 * n] is stored as
    the raw value 256 while [FromInt(1)] is the raw value 16. *)
Lemma floor_fromfloat_16n_counterexample :
  -2048 <= 1 <= 2047
  /\ option_map Floor (FromFloat (F32.of_Z (16 * 1))) = Some (mk 256)
  /\ FromInt 1 0 = mk 16
  /\ option_map Floor (FromFloat (F32.of_Z (16 * 1))) <> Some (FromInt 1 0).
Proof.
  split; [lia |]. split; [reflexivity |]. split; [reflexivity |].
  intros H. apply (f_equal (option_map value)) in H.
  vm_compute in H. discriminate.
Qed.

(** C7, amended.  For every integer [n] in [-2048, 2047] the conversion
    [FromFloat(n)] is defined, stores [round(n * 16) = 16 * n], and
    [Floor(FromFloat(n)) == FromInt(n)]. *)
Theorem floor_fromfloat_is_fromint (n : Z) :
  -2048 <= n <= 2047 ->
  exists x,
    FromFloat (F32.of_Z n) = Some x
    /\ F32.round (F32.mul (F32.of_Z n) F32.sixteen) = Some (16 * n)
    /\ value x = 16 * n
    /\ Floor x = FromInt n 0
    /\ eq (Floor x) (FromInt n 0) = true.
Proof.
  intros Hn.
  pose (P := fun n : Z =>
    match FromFloat (F32.of_Z n),
          F32.round (F32.mul (F32.of_Z n) F32.sixteen) with
    | Some x, Some r =>
        (r =? 16 * n) && (value x =? 16 * n)
        && (value (Floor x) =? value (FromInt n 0))
    | _, _ => false
    end).
  assert (Hall : forallb P (Range.int_range (-2048) 4096) = true)
    by (vm_compute; reflexivity).
  pose proof (forall_int_range P (-2048) 4096 Hall n ltac:(lia)) as HP.
  unfold P in HP.
  destruct (FromFloat (F32.of_Z n)) as [x |]; [| discriminate].
  destruct (F32.round (F32.mul (F32.of_Z n) F32.sixteen)) as [r |];
    [| discriminate].
  apply andb_prop in HP. destruct HP as [HP H3].
  apply andb_prop in HP. destruct HP as [H1 H2].
  apply Z.eqb_eq in H1, H2, H3.
  exists x. repeat split.
  - f_equal. exact H1.
  - exact H2.
  - destruct (Floor x) as [u], (FromInt n 0) as [v]. simpl in H3. congruence.
  - unfold eq. apply Z.eqb_eq. exact H3.
Qed.

Lemma floor_fromfloat_is_fromint_witness :
  -2048 <= -2048 <= 2047
  /\ exists x, FromFloat (F32.of_Z (-2048)) = Some x
               /\ Floor x = FromInt (-2048) 0.
Proof.
  split; [lia |].
  destruct (floor_fromfloat_is_fromint (-2048) ltac:(lia))
    as (x & Hx & _ & _ & Hf & _).
  exists x. split; assumption.
Defined.

(** C8.  [Ceil] is [Floor] applied to [raw + FracMask], and whatever
    [FromInt] builds from an integer is left unchanged by [Ceil]; for
    [n] in [-2048, 2047] that value is the raw value [16 * n]. *)
Theorem ceil_fixes_integral (n : Z) :
  in_s16 n ->
  (forall x, Ceil x = Floor (mk (cast_s16 (value x + FracMask))))
  /\ Ceil (FromInt n 0) = FromInt n 0
  /\ eq (Ceil (FromInt n 0)) (FromInt n 0) = true
  /\ (-2048 <= n <= 2047 -> Ceil (mk (16 * n)) = mk (16 * n)).
Proof.
  intros _.
  assert (Hfix : Ceil (FromInt n 0) = FromInt n 0).
  { destruct (FromInt_multiple n) as (k & Hk & Hr).
    destruct (FromInt n 0) as [v]. cbn [value] in Hk. subst v.
    unfold Ceil. rewrite FracMask_val. cbn [value].
    rewrite (cast_s16_id (16 * k + 15)) by (unfold in_s16; lia).
    unfold Floor. cbn [value]. rewrite IntMask_val, land_m16.
    replace ((16 * k + 15) / 16) with k by (Z.div_mod_to_equations; lia).
    rewrite cast_s16_id by (unfold in_s16; lia). reflexivity. }
  repeat split.
  - exact Hfix.
  - rewrite Hfix. unfold eq. apply Z.eqb_refl.
  - intros Hn. rewrite <- (FromInt_in_range n Hn). exact Hfix.
Qed.

Lemma ceil_fixes_integral_witness :
  in_s16 2047 /\ Ceil (FromInt 2047 0) = FromInt 2047 0.
Proof.
  assert (H : in_s16 2047) by (unfold in_s16; lia).
  split; [exact H |].
  apply (proj1 (proj2 (ceil_fixes_integral 2047 H))).
Defined.

Lemma to_real_add (x y z : Z) :
  z = x + y -> (to_real (mk z) == to_real (mk x) + to_real (mk y))%Q.
Proof.
  intros ->. unfold to_real, Qeq, Qdiv, Qmult, Qinv, Qplus. simpl. lia.
Qed.

Lemma to_real_sub (x y z : Z) :
  z = x - y -> (to_real (mk z) == to_real (mk x) - to_real (mk y))%Q.
Proof.
  intros ->.
  unfold to_real, Qeq, Qdiv, Qmult, Qinv, Qminus, Qplus, Qopp. simpl. lia.
Qed.

(** C9, as stated, fails where the 16-bit sum overflows: the raw values
    32767 and 1 add to the raw value -32768, which stands for -2048 and
    not for 2047.9375 + 0.0625 = 2048; likewise -32768 minus 1. *)
Lemma add_exact_counterexample :
  wf (mk 32767) /\ wf (mk 1)
  /\ add (mk 32767) (mk 1) = mk (-32768)
  /\ ~ (to_real (add (mk 32767) (mk 1))
        == to_real (mk 32767) + to_real (mk 1))%Q
  /\ ~ (to_real (sub (mk (-32768)) (mk 1))
        == to_real (mk (-32768)) - to_real (mk 1))%Q.
Proof.
  unfold wf, in_s16. simpl value.
  split; [lia |]. split; [lia |]. split; [reflexivity |].
  split; intros H; vm_compute in H; discriminate.
Qed.

(** C9, amended.  Addition and subtraction add and subtract the raw
    values and reduce the result to sixteen bits.  Whenever the raw sum
    (difference) is itself a 16-bit value, the real number that the
    result stands for is exactly [rawA/16 + rawB/16] ([rawA/16 -
    rawB/16]); in every case the raw result differs from the raw sum
    (difference) by a multiple of 2^16. *)
Theorem add_sub_exact_in_range (a b : t) :
  wf a -> wf b ->
  value (add a b) = cast_s16 (value a + value b)
  /\ value (sub a b) = cast_s16 (value a - value b)
  /\ (in_s16 (value a + value b) ->
      (to_real (add a b) == to_real a + to_real b)%Q)
  /\ (in_s16 (value a - value b) ->
      (to_real (sub a b) == to_real a - to_real b)%Q)
  /\ (value (add a b) - (value a + value b)) mod 65536 = 0
  /\ (value (sub a b) - (value a - value b)) mod 65536 = 0
  /\ add_assign a b = add a b
  /\ sub_assign a b = sub a b.
Proof.
  intros _ _. destruct a as [x], b as [y]. unfold add, sub. cbn [value].
  repeat split.
  - intros H. apply to_real_add, cast_s16_id, H.
  - intros H. apply to_real_sub, cast_s16_id, H.
  - apply cast_s16_congr.
  - apply cast_s16_congr.
Qed.

Lemma add_sub_exact_in_range_witness :
  wf (mk 24) /\ wf (mk (-40))
  /\ (to_real (add (mk 24) (mk (-40))) == to_real (mk 24) + to_real (mk (-40)))%Q.
Proof.
  assert (Ha : wf (mk 24)) by solve_wf.
  assert (Hb : wf (mk (-40))) by solve_wf.
  split; [exact Ha |]. split; [exact Hb |].
  destruct (add_sub_exact_in_range (mk 24) (mk (-40)) Ha Hb)
    as (_ & _ & H & _).
  apply H. unfold in_s16. simpl. lia.
Defined.

End Fix12P4Facts.

(** ** Masks, shifts and disjoint bit fields *)

Module BitFacts.
Import CInt.

(** The mask [(1 << n) - 1]. *)
Lemma mask_ones (n : Z) : Z.shiftl 1 n - 1 = Z.ones n.
Proof. unfold Z.ones. lia. Qed.

Lemma land_mask (x n : Z) : 0 <= n -> Z.land x (Z.shiftl 1 n - 1) = x mod 2 ^ n.
Proof. intros Hn. rewrite mask_ones. apply Z.land_ones, Hn. Qed.

(** All of the low [n] bits are clear exactly when the masked value is 0. *)
Lemma low_bits_clear (x n : Z) :
  0 <= n ->
  (forall i, 0 <= i < n -> Z.testbit x i = false) ->
  Z.land x (Z.shiftl 1 n - 1) = 0.
Proof.
  intros Hn Hlow. rewrite mask_ones. apply Z.bits_inj'. intros i Hi.
  rewrite Z.land_spec, Z.bits_0.
  destruct (Z.lt_ge_cases i n) as [Hlt | Hge].
  - rewrite Hlow by lia. reflexivity.
  - rewrite Z.ones_spec_high by lia. apply andb_false_r.
Qed.

Lemma low_bit_set (x n : Z) :
  0 <= n ->
  (exists i, 0 <= i < n /\ Z.testbit x i = true) ->
  Z.land x (Z.shiftl 1 n - 1) <> 0.
Proof.
  intros Hn (i & Hi & Hbit) Hz.
  apply (f_equal (fun z => Z.testbit z i)) in Hz.
  rewrite mask_ones, Z.land_spec, Hbit, Z.ones_spec_low, Z.bits_0 in Hz by lia.
  discriminate.
Qed.

(** Shifting by 31 inside a [u32] keeps the lowest bit only. *)
Lemma shiftl31_u32 (s : Z) :
  cast_u32 (Z.shiftl s 31) = if Z.odd s then 2147483648 else 0.
Proof.
  unfold cast_u32. rewrite Z.shiftl_mul_pow2 by lia.
  change (2 ^ 31) with 2147483648.
  pose proof (Zmod_odd s) as Hodd.
  destruct (Z.odd s); Z.div_mod_to_equations; lia.
Qed.

(** A field placed above a smaller value does not overlap it, so the
    bitwise or is the sum. *)
Lemma lor_shiftl_add (hi lo k : Z) :
  0 <= k -> 0 <= lo < 2 ^ k ->
  Z.lor (Z.shiftl hi k) lo = hi * 2 ^ k + lo.
Proof.
  intros Hk Hlo.
  assert (Hdisj : Z.land (Z.shiftl hi k) lo = 0).
  { apply Z.bits_inj'. intros i Hi. rewrite Z.land_spec, Z.bits_0.
    destruct (Z.lt_ge_cases i k) as [Hlt | Hge].
    - rewrite Z.shiftl_spec_low by lia. reflexivity.
    - destruct (Z.eq_dec lo 0) as [-> | Hnz].
      + rewrite Z.bits_0. apply andb_false_r.
      + assert (Hlog : Z.log2 lo < k) by (apply Z.log2_lt_pow2; lia).
        rewrite (Z.bits_above_log2 lo i) by lia.
        apply andb_false_r. }
  rewrite <- Z.lxor_lor, <- Z.add_nocarry_lxor by exact Hdisj.
  rewrite Z.shiftl_mul_pow2 by lia. reflexivity.
Qed.

End BitFacts.

(** ** Float<M,E> *)

Module FloatFacts.
Import CInt CIntFacts BitFacts Float.

(** [x == 0.f] holds for the two zeros and for nothing else. *)
Lemma eq_zero_is_zero (x : spec_float) : SFeqb x F32.pos_zero = is_zero x.
Proof. destruct x as [s | s | | s m e]; try reflexivity; destruct s; reflexivity. Qed.

Lemma forced_zero_classes (x y : spec_float) :
  forced_zero x y =
  (is_zero x && negb (F32.isnan y)) || (is_zero y && negb (F32.isnan x)).
Proof. unfold forced_zero. rewrite !eq_zero_is_zero. reflexivity. Qed.

(** C1.  If one operand is a zero (of either sign) and the other is not
    NaN, the product is [Zero()], the positive zero, also when the other
    operand is an infinity; in every other case the product is the
    binary32 product of the two values.  So [0 * Infinity] is 0 (where
    the binary32 product is NaN) and [NaN * 0] is NaN.  The operator does
    not look at [M] and [E], so this holds at all three instances. *)
Theorem mul_zero_override (M E : Z) (a b : t M E) :
  ((is_zero (value a) = true /\ F32.isnan (value b) = false)
   \/ (is_zero (value b) = true /\ F32.isnan (value a) = false) ->
   mul a b = Zero /\ value (mul a b) = F32.pos_zero)
  /\ (~ ((is_zero (value a) = true /\ F32.isnan (value b) = false)
         \/ (is_zero (value b) = true /\ F32.isnan (value a) = false)) ->
      mul a b = FromFloat32 (F32.mul (value a) (value b)))
  /\ mul (M := M) (E := E) (FromFloat32 F32.pos_zero) (FromFloat32 F32.infinity)
     = FromFloat32 F32.pos_zero
  /\ eq (M := M) (E := E)
        (mul (FromFloat32 F32.pos_zero) (FromFloat32 F32.infinity))
        (FromFloat32 F32.pos_zero) = true
  /\ F32.mul F32.pos_zero F32.infinity = F32.nan
  /\ mul (M := M) (E := E) (FromFloat32 F32.nan) (FromFloat32 F32.pos_zero)
     = FromFloat32 F32.nan.
Proof.
  split; [| split; [| repeat split]].
  - intros H.
    assert (Hm : mul a b = Zero).
    { unfold mul. rewrite forced_zero_classes.
      destruct H as [[Hz Hn] | [Hz Hn]]; rewrite Hz, Hn; simpl;
        rewrite ?orb_true_r; reflexivity. }
    rewrite Hm. split; reflexivity.
  - intros Hnot. unfold mul, ToFloat32. rewrite forced_zero_classes.
    destruct (is_zero (value a)) eqn:Za, (F32.isnan (value b)) eqn:Nb,
             (is_zero (value b)) eqn:Zb, (F32.isnan (value a)) eqn:Na;
      simpl; try reflexivity; exfalso; apply Hnot; auto.
Qed.

Lemma mul_zero_override_witness :
  mul (M := 16) (E := 7) (FromFloat32 F32.neg_zero) (FromFloat32 F32.infinity)
  = Zero
  /\ mul (M := 10) (E := 5) (FromFloat32 F32.half) (FromFloat32 F32.sixteen)
     = FromFloat32 (F32.mul F32.half F32.sixteen).
Proof.
  destruct (mul_zero_override 16 7 (FromFloat32 F32.neg_zero)
              (FromFloat32 F32.infinity)) as (Hforced & _).
  destruct (mul_zero_override 10 5 (FromFloat32 F32.half)
              (FromFloat32 F32.sixteen)) as (_ & Hnative & _).
  split.
  - apply Hforced. left. split; reflexivity.
  - apply Hnative. intros [[H _] | [H _]]; simpl in H; discriminate H.
Defined.

Lemma assign_same {M E : Z} (st : store M E) (r : ref) (v : t M E) :
  assign st r v r = v.
Proof. unfold assign. rewrite Nat.eqb_refl. reflexivity. Qed.

Lemma set_value_same {M E : Z} (st : store M E) (r : ref) (f : spec_float) :
  set_value st r f r = mk f.
Proof. unfold set_value. rewrite Nat.eqb_refl. reflexivity. Qed.

(** A compound assignment writes to [this] only. *)
Lemma compound_frame {M E : Z} (st : store M E) (this flt r : ref) :
  r <> this ->
  mul_assign st this flt r = st r /\ div_assign st this flt r = st r
  /\ add_assign st this flt r = st r /\ sub_assign st this flt r = st r.
Proof.
  intros Hr. apply Nat.eqb_neq in Hr.
  unfold mul_assign, div_assign, add_assign, sub_assign, assign, set_value.
  destruct (forced_zero _ _); rewrite Hr; repeat split.
Qed.

(** C10.  After [a *= b] the object [a] holds [a * b] computed from the
    values before the assignment, the forced zero included, and
    likewise [/=], [+=] and [-=] leave [a / b], [a + b] and [a - b];
    this also holds when [b] is the same object as [a].  The operators
    do not look at [M] and [E], so this holds at all three instances. *)
Theorem compound_matches_binary (M E : Z) (st : store M E) (this flt : ref) :
  mul_assign st this flt this = mul (st this) (st flt)
  /\ div_assign st this flt this = div (st this) (st flt)
  /\ add_assign st this flt this = add (st this) (st flt)
  /\ sub_assign st this flt this = sub (st this) (st flt).
Proof.
  unfold mul_assign, div_assign, add_assign, sub_assign, mul, div, add, sub.
  repeat split.
  - destruct (forced_zero (value (st this)) (value (st flt))).
    + apply assign_same.
    + apply set_value_same.
  - apply set_value_same.
  - apply set_value_same.
  - apply set_value_same.
Qed.

(** The decoding of a raw value whose low [M + E] bits are clear. *)
Lemma FromRaw_sign_only (M E hex : Z) :
  0 <= M -> 0 <= E ->
  (forall i, 0 <= i < M + E -> Z.testbit hex i = false) ->
  FromRaw M E hex = FromFloat32 (S754_zero (Z.testbit hex (M + E))).
Proof.
  intros HM HE Hlow. unfold FromRaw, FromFloat32.
  replace (M + E + 1 - 1) with (M + E) by ring.
  rewrite (low_bits_clear hex (M + E)) by (lia || exact Hlow).
  cbn [Z.eqb negb]. rewrite shiftl31_u32, Z.testbit_odd, (Z.add_comm E M).
  destruct (Z.odd (Z.shiftr hex (M + E))); reflexivity.
Qed.

(** C2.  At each of the three instances, a raw value whose bits below
    the sign bit (the low [M + E] bits) are all clear decodes to the zero
    whose sign is bit [M + E]; [FromRaw(0)] is +0.0 and [FromRaw] of the
    sign bit alone is -0.0. *)
Theorem FromRaw_zero_collapse (M E hex : Z) :
  In (M, E) instances -> in_u32 hex ->
  (forall i, 0 <= i < M + E -> Z.testbit hex i = false) ->
  FromRaw M E hex = FromFloat32 (S754_zero (Z.testbit hex (M + E)))
  /\ FromRaw M E 0 = FromFloat32 F32.pos_zero
  /\ FromRaw M E (2 ^ (M + E)) = FromFloat32 F32.neg_zero.
Proof.
  intros Hin _ Hlow.
  assert (HME : 0 <= M /\ 0 <= E).
  { simpl in Hin.
    destruct Hin as [H | [H | [H | []]]]; inversion H; lia. }
  split; [apply FromRaw_sign_only; (lia || exact Hlow) |].
  simpl in Hin.
  destruct Hin as [H | [H | [H | []]]]; inversion H; subst;
    split; reflexivity.
Qed.

Lemma FromRaw_zero_collapse_witness :
  FromRaw 16 7 8388608 = FromFloat32 F32.neg_zero
  /\ FromRaw 12 7 0 = FromFloat32 F32.pos_zero
  /\ FromRaw 10 5 4294934528 = FromFloat32 F32.neg_zero.
Proof.
  assert (Hlow : forall hex n : Z,
             Z.land hex (Z.ones n) = 0 -> 0 <= n ->
             forall i, 0 <= i < n -> Z.testbit hex i = false).
  { intros hex n Hz Hn i Hi.
    apply (f_equal (fun z => Z.testbit z i)) in Hz.
    rewrite Z.land_spec, Z.ones_spec_low, Z.bits_0, andb_true_r in Hz by lia.
    exact Hz. }
  split; [| split].
  - apply (FromRaw_zero_collapse 16 7 8388608).
    + simpl. auto.
    + unfold in_u32. lia.
    + apply Hlow; [reflexivity | lia].
  - apply (FromRaw_zero_collapse 12 7 0).
    + simpl. auto.
    + unfold in_u32. lia.
    + apply Hlow; [reflexivity | lia].
  - apply (FromRaw_zero_collapse 10 5 4294934528).
    + simpl. auto.
    + unfold in_u32. lia.
    + apply Hlow; [reflexivity | lia].
Defined.

(** The fields of the specification are what the masks and shifts of
    the code extract. *)
Lemma mantissa_field (M hex : Z) :
  0 <= M -> Z.land hex (Z.shiftl 1 M - 1) = spec_mantissa M hex.
Proof.
  intros HM. unfold spec_mantissa, field.
  rewrite land_mask, Z.pow_0_r, Z.div_1_r by lia. reflexivity.
Qed.

Lemma exponent_field (M E hex : Z) :
  0 <= M -> 0 <= E ->
  Z.land (Z.shiftr hex M) (Z.shiftl 1 E - 1) = spec_exponent M E hex.
Proof.
  intros HM HE. unfold spec_exponent, field.
  rewrite land_mask, Z.shiftr_div_pow2 by lia. reflexivity.
Qed.

Lemma sign_field (M E hex : Z) :
  0 <= M -> 0 <= E -> 0 <= hex < 2 ^ (M + E + 1) ->
  Z.shiftr hex (E + M) = spec_sign M E hex
  /\ 0 <= spec_sign M E hex <= 1.
Proof.
  intros HM HE Hhex. unfold spec_sign, field.
  rewrite (Z.add_comm E M), Z.shiftr_div_pow2 by lia.
  change (2 ^ 1) with 2.
  assert (Hp : 0 < 2 ^ (M + E)) by (apply Z.pow_pos_nonneg; lia).
  assert (Hq : 0 <= hex / 2 ^ (M + E) < 2).
  { split.
    - apply Z.div_pos; lia.
    - apply Z.div_lt_upper_bound; [lia |].
      rewrite Z.pow_add_r, Z.pow_1_r in Hhex by lia. lia. }
  rewrite Z.mod_small by lia. lia.
Qed.

Lemma bias_field (E : Z) :
  1 <= E <= 8 ->
  128 - Z.shiftl 1 (E - 1) = spec_bias E /\ 0 <= spec_bias E <= 127
  /\ 2 ^ E = 2 * (128 - spec_bias E).
Proof.
  intros HE. unfold spec_bias.
  rewrite Z.shiftl_mul_pow2, Z.mul_1_l by lia.
  assert (H1 : 1 <= 2 ^ (E - 1)) by (apply (Z.pow_le_mono_r 2 0); lia).
  assert (H2 : 2 ^ (E - 1) <= 2 ^ 7) by (apply Z.pow_le_mono_r; lia).
  change (2 ^ 7) with 128 in H2.
  assert (H3 : 2 ^ E = 2 * 2 ^ (E - 1)).
  { rewrite <- Z.pow_succ_r by lia. f_equal. lia. }
  lia.
Qed.

(** The decoding of a raw value with a bit set below the sign bit, for
    any widths that leave room in the binary32 fields. *)
Lemma FromRaw_pattern (M E hex : Z) :
  0 <= M <= 23 -> 1 <= E <= 8 -> 0 <= hex < 2 ^ (M + E + 1) ->
  (exists i, 0 <= i < M + E /\ Z.testbit hex i = true) ->
  FromRaw M E hex = mk (F32.bit_cast (spec_pattern M E hex))
  /\ spec_pattern M E hex
     = spec_sign M E hex * 2 ^ 31
       + (spec_exponent M E hex + spec_bias E) * 2 ^ 23
       + spec_mantissa M hex * 2 ^ (23 - M).
Proof.
  intros HM HE Hhex Hbit.
  destruct (sign_field M E hex) as [Hs Hsr]; try lia.
  destruct (bias_field E HE) as (Hb & Hbr & HpE).
  assert (HpM : 0 < 2 ^ M) by (apply Z.pow_pos_nonneg; lia).
  assert (Hp23 : 2 ^ M * 2 ^ (23 - M) = 8388608).
  { rewrite <- Z.pow_add_r by lia.
    replace (M + (23 - M)) with 23 by ring. reflexivity. }
  assert (Hm : 0 <= spec_mantissa M hex < 2 ^ M).
  { unfold spec_mantissa, field. apply Z.mod_pos_bound. exact HpM. }
  assert (He : 0 <= spec_exponent M E hex < 2 ^ E).
  { unfold spec_exponent, field. apply Z.mod_pos_bound. lia. }
  set (s := spec_sign M E hex) in *.
  set (m := spec_mantissa M hex) in *.
  set (e := spec_exponent M E hex) in *.
  set (bias := spec_bias E) in *.
  assert (Hmt : 0 <= m * 2 ^ (23 - M) < 8388608) by nia.
  assert (Hsum :
            Z.lor (Z.lor (Z.shiftl s 31) (Z.shiftl (e + bias) 23))
                  (Z.shiftl m (23 - M))
            = s * 2 ^ 31 + (e + bias) * 2 ^ 23 + m * 2 ^ (23 - M)).
  { rewrite <- Z.lor_assoc.
    rewrite (Z.shiftl_mul_pow2 m) by lia.
    rewrite (lor_shiftl_add (e + bias) (m * 2 ^ (23 - M)) 23)
      by (change (2 ^ 23) with 8388608; lia).
    rewrite lor_shiftl_add; [lia | lia |].
    change (2 ^ 23) with 8388608. change (2 ^ 31) with 2147483648. lia. }
  split; [| exact Hsum].
  unfold FromRaw.
  replace (M + E + 1 - 1) with (M + E) by ring.
  destruct (Z.eqb_spec (Z.land hex (Z.shiftl 1 (M + E) - 1)) 0) as [Hz | _].
  { exfalso. revert Hz. apply low_bit_set; [lia | exact Hbit]. }
  cbn [negb].
  rewrite Hs, Hb, mantissa_field, exponent_field by lia.
  fold s m e bias.
  rewrite (cast_u32_id (Z.shiftl s 31)), (cast_u32_id (Z.shiftl m (23 - M))),
    (cast_u32_id (Z.shiftl (e + bias) 23)).
  - rewrite <- Z.lor_assoc, (Z.lor_comm (Z.shiftl m (23 - M))), Z.lor_assoc.
    rewrite cast_u32_id; [reflexivity |].
    unfold spec_pattern in Hsum. fold s m e bias in Hsum.
    unfold in_u32. rewrite Hsum.
    change (2 ^ 23) with 8388608. change (2 ^ 31) with 2147483648. lia.
  - unfold in_u32. rewrite Z.shiftl_mul_pow2 by lia.
    change (2 ^ 23) with 8388608. lia.
  - unfold in_u32. rewrite Z.shiftl_mul_pow2 by lia. lia.
  - unfold in_u32. rewrite Z.shiftl_mul_pow2 by lia.
    change (2 ^ 31) with 2147483648. lia.
Qed.

(** C3.  At each of the three instances, a raw value of [M + E + 1]
    bits with a bit set below the sign bit decodes to the float whose
    32-bit pattern is [sign<<31 | (exponent+bias)<<23 |
    mantissa<<(23-M)], with [bias = 128 - 2^(E-1)], the exponent taken
    from bits [M, M+E) and the mantissa from bits [0, M); the three
    fields of the pattern do not overlap. *)
Theorem FromRaw_normalized (M E hex : Z) :
  In (M, E) instances ->
  0 <= hex < 2 ^ (M + E + 1) ->
  (exists i, 0 <= i < M + E /\ Z.testbit hex i = true) ->
  FromRaw M E hex = mk (F32.bit_cast (spec_pattern M E hex))
  /\ ToFloat32 (FromRaw M E hex) = F32.bit_cast (spec_pattern M E hex)
  /\ spec_pattern M E hex
     = spec_sign M E hex * 2 ^ 31
       + (spec_exponent M E hex + spec_bias E) * 2 ^ 23
       + spec_mantissa M hex * 2 ^ (23 - M).
Proof.
  intros Hin Hhex Hbit.
  assert (HME : 0 <= M <= 23 /\ 1 <= E <= 8).
  { simpl in Hin.
    destruct Hin as [H | [H | [H | []]]]; inversion H; lia. }
  destruct (FromRaw_pattern M E hex) as [Hraw Hsum];
    try lia; try assumption.
  rewrite Hraw. repeat split. exact Hsum.
Qed.

Lemma FromRaw_normalized_witness :
  FromRaw 16 7 12517376 = mk (F32.bit_cast 3212836864)
  /\ FromRaw 12 7 258048 = mk (F32.bit_cast 1065353216)
  /\ FromRaw 10 5 15360 = mk (F32.bit_cast 1065353216).
Proof.
  split; [| split].
  - apply (FromRaw_normalized 16 7 12517376).
    + simpl. auto.
    + simpl. lia.
    + exists 16. split; [lia | reflexivity].
  - apply (FromRaw_normalized 12 7 258048).
    + simpl. auto.
    + simpl. lia.
    + exists 12. split; [lia | reflexivity].
  - apply (FromRaw_normalized 10 5 15360).
    + simpl. auto.
    + simpl. lia.
    + exists 10. split; [lia | reflexivity].
Defined.

(** Decoding fixtures: 1.0 and -1.0 at each width, and the smallest
    nonzero raw value of float16. *)
Example FromRaw_fixtures :
  FromRaw 16 7 4128768 = FromFloat32 (S754_finite false 8388608 (-23))
  /\ FromRaw 16 7 12517376 = FromFloat32 (S754_finite true 8388608 (-23))
  /\ FromRaw 12 7 258048 = FromFloat32 (S754_finite false 8388608 (-23))
  /\ FromRaw 10 5 15360 = FromFloat32 (S754_finite false 8388608 (-23))
  /\ FromRaw 10 5 48128 = FromFloat32 (S754_finite true 8388608 (-23))
  /\ FromRaw 10 5 1 = FromFloat32 (S754_finite false 8396800 (-38)).
Proof. repeat split. Qed.

End FloatFacts.

(** * Further properties of the code *)

(** ** Fix12P4: parts, rounding, arithmetic modulo 2^16 *)

Module Fix12P4More.
Import CInt CIntFacts BitFacts Fix12P4.

Ltac solve_wf := unfold wf, in_s16; simpl; lia.

(** Conversions to sixteen bits may be dropped under an outer one. *)
Lemma cast_s16_add_l (x y : Z) : cast_s16 (cast_s16 x + y) = cast_s16 (x + y).
Proof. unfold cast_s16. Z.div_mod_to_equations. lia. Qed.

Lemma cast_s16_add_r (x y : Z) : cast_s16 (x + cast_s16 y) = cast_s16 (x + y).
Proof. rewrite Z.add_comm, cast_s16_add_l, Z.add_comm. reflexivity. Qed.

Lemma cast_s16_opp (x : Z) : cast_s16 (- cast_s16 x) = cast_s16 (- x).
Proof. unfold cast_s16. Z.div_mod_to_equations. lia. Qed.

Lemma cast_s16_sub_r (x y : Z) : cast_s16 (x - cast_s16 y) = cast_s16 (x - y).
Proof. unfold cast_s16. Z.div_mod_to_equations. lia. Qed.

Lemma cast_s16_sub_l (x y : Z) : cast_s16 (cast_s16 x - y) = cast_s16 (x - y).
Proof. unfold cast_s16. Z.div_mod_to_equations. lia. Qed.

Lemma mk_value (x : t) : mk (value x) = x.
Proof. destruct x. reflexivity. Qed.

(** Two values with the same raw field are the same value. *)
Lemma value_inj (x y : t) : value x = value y -> x = y.
Proof. destruct x, y. simpl. intros ->. reflexivity. Qed.

Lemma Int_value (x : t) : wf x -> Int x = value x / 16.
Proof.
  unfold wf, in_s16, Int. intros H.
  change IntMask with (-16). rewrite land_m16.
  rewrite (Z.mul_comm 16), Z.quot_mul by lia.
  apply cast_s16_id. unfold in_s16. Z.div_mod_to_equations. lia.
Qed.

Lemma Frac_value (x : t) : Frac x = value x mod 16.
Proof.
  unfold Frac. change FracMask with 15. rewrite land_15.
  unfold cast_u16. apply Z.mod_small. Z.div_mod_to_equations. lia.
Qed.

(** What [FromInt] stores, for any arguments. *)
Lemma FromInt_general (n f : Z) :
  value (FromInt n f) = cast_s16 (16 * n + f mod 16).
Proof.
  unfold FromInt. cbn [value]. change IntMask with (-16).
  change FracMask with 15. rewrite land_m16, land_15.
  rewrite Z.div_mul by lia. f_equal.
  assert (Hf : 0 <= f mod 16 < 2 ^ 4)
    by (change (2 ^ 4) with 16; apply Z.mod_pos_bound; lia).
  replace (16 * n) with (Z.shiftl n 4)
    by (rewrite Z.shiftl_mul_pow2 by lia; change (2 ^ 4) with 16; ring).
  rewrite lor_shiftl_add by (lia || exact Hf).
  rewrite Z.shiftl_mul_pow2 by lia. reflexivity.
Qed.

(** X1.  A raw value splits into its parts: [raw = 16 * Int() +
    Frac()], the fraction is a nibble in [0, 15] (never negative) and
    the integer part is the floor of [raw / 16], in [-2048, 2047]; for
    a negative value with a fraction the integer part lies below the
    value. *)
Theorem int_frac_decompose (x : t) :
  wf x ->
  value x = 16 * Int x + Frac x
  /\ 0 <= Frac x <= 15
  /\ -2048 <= Int x <= 2047
  /\ Int x = value x / 16
  /\ (value x < 0 -> Frac x <> 0 -> Int x < Z.quot (value x) 16).
Proof.
  intros Hx. rewrite (Int_value x Hx), Frac_value.
  unfold wf, in_s16 in Hx.
  repeat split; try (Z.div_mod_to_equations; lia).
  intros Hneg Hfrac. Z.to_euclidean_division_equations. lia.
Qed.

Lemma int_frac_decompose_witness :
  wf (mk (-8)) /\ Int (mk (-8)) = -1 /\ Frac (mk (-8)) = 8.
Proof.
  assert (H : wf (mk (-8))) by solve_wf.
  destruct (int_frac_decompose (mk (-8)) H) as (_ & _ & _ & Hi & _).
  split; [exact H |]. split; [exact Hi | reflexivity].
Defined.

(** X2.  Rebuilding a value from its own parts gives the value back:
    [FromInt(x.Int(), x.Frac()) == x]. *)
Theorem fromint_of_parts (x : t) :
  wf x -> FromInt (Int x) (Frac x) = x /\ eq (FromInt (Int x) (Frac x)) x = true.
Proof.
  intros Hx.
  assert (Hv : value (FromInt (Int x) (Frac x)) = value x).
  { rewrite FromInt_general, (Int_value x Hx), Frac_value.
    rewrite Z.mod_mod by lia. rewrite <- Z.div_mod by lia.
    apply cast_s16_id, Hx. }
  split.
  - apply value_inj, Hv.
  - unfold eq. rewrite Hv. apply Z.eqb_refl.
Qed.

Lemma fromint_of_parts_witness :
  wf (mk (-32761)) /\ FromInt (Int (mk (-32761))) (Frac (mk (-32761))) = mk (-32761).
Proof.
  assert (H : wf (mk (-32761))) by solve_wf.
  split; [exact H |]. apply (fromint_of_parts (mk (-32761)) H).
Defined.

(** X3.  For an integer part in [-2048, 2047] and a fraction in
    [0, 15], [FromInt] stores [16 * int + frac], and [Int()] and
    [Frac()] read the two arguments back. *)
Theorem parts_of_fromint (n f : Z) :
  -2048 <= n <= 2047 -> 0 <= f <= 15 ->
  value (FromInt n f) = 16 * n + f
  /\ Int (FromInt n f) = n
  /\ Frac (FromInt n f) = f.
Proof.
  intros Hn Hf.
  assert (Hv : value (FromInt n f) = 16 * n + f).
  { rewrite FromInt_general, Z.mod_small by lia.
    apply cast_s16_id. unfold in_s16. lia. }
  split; [exact Hv |].
  rewrite Int_value by (unfold wf, in_s16; lia).
  rewrite Frac_value, Hv. split; Z.div_mod_to_equations; lia.
Qed.

Lemma parts_of_fromint_witness :
  value (FromInt (-2048) 15) = -32753
  /\ Int (FromInt (-2048) 15) = -2048 /\ Frac (FromInt (-2048) 15) = 15.
Proof. apply (parts_of_fromint (-2048) 15); lia. Defined.

(** X4.  [FromInt] truncates silently: only the integer part modulo
    4096 and the fraction modulo 16 reach the stored value, so an
    integer part outside [-2048, 2047] wraps around and the high bits of
    the fraction are dropped. *)
Theorem fromint_truncates (n f i j : Z) :
  FromInt (n + 4096 * i) (f + 16 * j) = FromInt n f
  /\ wf (FromInt n f).
Proof.
  split.
  - apply value_inj. rewrite !FromInt_general.
    unfold cast_s16. Z.div_mod_to_equations. lia.
  - unfold wf. rewrite FromInt_general. apply cast_s16_range.
Qed.

(** X5.  [Floor] rounds toward negative infinity onto the multiples of
    sixteen: the result is a 16-bit value with no fraction, at most
    the argument and less than sixteen below it; it is the value built
    from the integer part alone, flooring twice changes nothing, and
    flooring keeps the order. *)
Theorem floor_rounds_down (x : t) :
  wf x ->
  wf (Floor x)
  /\ Frac (Floor x) = 0
  /\ value (Floor x) <= value x < value (Floor x) + 16
  /\ Floor x = FromInt (Int x) 0
  /\ Floor (Floor x) = Floor x
  /\ (forall y, wf y -> value x <= value y ->
                value (Floor x) <= value (Floor y)).
Proof.
  intros Hx.
  assert (Hfl : forall z, wf z -> value (Floor z) = 16 * (value z / 16)).
  { intros z Hz. unfold Floor. cbn [value]. change IntMask with (-16).
    rewrite land_m16. apply cast_s16_id.
    unfold wf, in_s16 in *. Z.div_mod_to_equations. lia. }
  pose proof (Hfl x Hx) as Hv.
  assert (Hw : wf (Floor x)).
  { unfold wf, in_s16 in *. rewrite Hv. Z.div_mod_to_equations. lia. }
  repeat split; try apply Hw.
  - rewrite Frac_value, Hv. Z.div_mod_to_equations. lia.
  - rewrite Hv. Z.div_mod_to_equations. lia.
  - rewrite Hv. Z.div_mod_to_equations. lia.
  - apply value_inj. rewrite FromInt_general, Hv, (Int_value x Hx).
    rewrite Z.mod_0_l, Z.add_0_r by lia. symmetry.
    apply cast_s16_id. unfold wf, in_s16 in *. Z.div_mod_to_equations. lia.
  - apply value_inj. rewrite (Hfl (Floor x) Hw), Hv.
    Z.div_mod_to_equations. lia.
  - intros y Hy Hle. rewrite Hv, (Hfl y Hy).
    Z.div_mod_to_equations. lia.
Qed.

Lemma floor_rounds_down_witness :
  wf (mk (-1)) /\ value (Floor (mk (-1))) <= -1 < value (Floor (mk (-1))) + 16
  /\ Floor (mk (-1)) = FromInt (-1) 0.
Proof.
  assert (H : wf (mk (-1))) by solve_wf.
  destruct (floor_rounds_down (mk (-1)) H) as (_ & _ & Hb & Hf & _).
  split; [exact H |]. split; [exact Hb | exact Hf].
Defined.

Lemma Floor_wf_value (z : t) : wf z -> value (Floor z) = 16 * (value z / 16).
Proof.
  intros Hz. unfold Floor. cbn [value]. change IntMask with (-16).
  rewrite land_m16. apply cast_s16_id.
  unfold wf, in_s16 in *. Z.div_mod_to_equations. lia.
Qed.

Lemma Ceil_value (x : t) :
  wf x -> value x <= 32752 -> value (Ceil x) = 16 * ((value x + 15) / 16).
Proof.
  intros Hx Hle. unfold Ceil. change FracMask with 15.
  unfold wf, in_s16 in Hx.
  rewrite (cast_s16_id (value x + 15)) by (unfold in_s16; lia).
  rewrite Floor_wf_value by (unfold wf, in_s16; simpl; lia).
  reflexivity.
Qed.

(** X6.  Up to the largest multiple of sixteen, 32752, [Ceil] rounds
    toward positive infinity onto the multiples of sixteen: the result
    has no fraction, is at least the argument and less than sixteen
    above it; a value without fraction is returned as it is, any other
    value gets the multiple above its [Floor]; and [Ceil] of a [Ceil] is
    the same value. *)
Theorem ceil_rounds_up (x : t) :
  wf x -> value x <= 32752 ->
  wf (Ceil x)
  /\ Frac (Ceil x) = 0
  /\ value x <= value (Ceil x) < value x + 16
  /\ (Frac x = 0 -> Ceil x = x)
  /\ (Frac x <> 0 -> value (Ceil x) = value (Floor x) + 16)
  /\ Ceil (Ceil x) = Ceil x.
Proof.
  intros Hx Hle.
  pose proof (Ceil_value x Hx Hle) as Hv.
  pose proof (Floor_wf_value x Hx) as Hf.
  assert (Hw : wf (Ceil x)).
  { unfold wf, in_s16 in *. rewrite Hv. Z.div_mod_to_equations. lia. }
  unfold wf, in_s16 in Hx.
  repeat split; try apply Hw.
  - rewrite Frac_value, Hv. Z.div_mod_to_equations. lia.
  - rewrite Hv. Z.div_mod_to_equations. lia.
  - rewrite Hv. Z.div_mod_to_equations. lia.
  - rewrite Frac_value. intros H0. apply value_inj. rewrite Hv.
    Z.div_mod_to_equations. lia.
  - rewrite Frac_value. intros H0. rewrite Hv, Hf.
    Z.div_mod_to_equations. lia.
  - apply value_inj. rewrite (Ceil_value (Ceil x) Hw), Hv;
      Z.div_mod_to_equations; lia.
Qed.

Lemma ceil_rounds_up_witness :
  wf (mk (-17)) /\ value (mk (-17)) <= 32752
  /\ value (Ceil (mk (-17))) = value (Floor (mk (-17))) + 16.
Proof.
  assert (H : wf (mk (-17))) by solve_wf.
  assert (Hle : value (mk (-17)) <= 32752) by (simpl; lia).
  destruct (ceil_rounds_up (mk (-17)) H Hle) as (_ & _ & _ & _ & Hc & _).
  split; [exact H |]. split; [exact Hle |].
  apply Hc. intros H0. vm_compute in H0. discriminate H0.
Defined.

(** X7.  Above 32752 there is no multiple of sixteen left in the
    16-bit range: [raw + FracMask] overflows, and [Ceil] returns the
    most negative value, -2048.0, which lies below its argument. *)
Theorem ceil_overflow_wraps (x : t) :
  wf x -> 32752 < value x ->
  Ceil x = mk (-32768) /\ lt (Ceil x) x = true.
Proof.
  intros Hx Hgt. unfold wf, in_s16 in Hx.
  assert (Hc : Ceil x = mk (-32768)).
  { apply value_inj. unfold Ceil, Floor. cbn [value].
    change FracMask with 15. change IntMask with (-16).
    rewrite land_m16. unfold cast_s16. Z.div_mod_to_equations. lia. }
  split; [exact Hc |]. rewrite Hc. unfold lt. cbn [value].
  apply Z.ltb_lt. lia.
Qed.

Lemma ceil_overflow_wraps_witness :
  wf (mk 32753) /\ 32752 < value (mk 32753) /\ Ceil (mk 32753) = mk (-32768).
Proof.
  assert (H : wf (mk 32753)) by solve_wf.
  assert (Hgt : 32752 < value (mk 32753)) by (simpl; lia).
  split; [exact H |]. split; [exact Hgt |].
  apply (ceil_overflow_wraps (mk 32753) H Hgt).
Defined.

(** X8.  Addition, subtraction and negation are arithmetic modulo
    2^16, so they obey the laws of a commutative group also where they
    wrap around: addition is commutative and associative with [Zero()]
    as its neutral element, [-a] is the inverse of [a], subtraction is
    addition of the negation, and adding [b] and subtracting it again
    (in either order) gives [a] back. *)
Theorem add_sub_neg_group (a b c : t) :
  wf a -> wf b -> wf c ->
  add a b = add b a
  /\ add (add a b) c = add a (add b c)
  /\ add a Zero = a
  /\ add a (neg a) = Zero
  /\ sub a b = add a (neg b)
  /\ sub (add a b) b = a
  /\ add (sub a b) b = a
  /\ neg (neg a) = a
  /\ pos a = a
  /\ wf (add a b) /\ wf (sub a b) /\ wf (neg a).
Proof.
  intros Ha Hb Hc. unfold wf in *.
  unfold add, sub, neg, pos, Zero. cbn [value].
  repeat split; try apply cast_s16_range; apply value_inj; cbn [value].
  - f_equal. lia.
  - rewrite cast_s16_add_l, cast_s16_add_r. f_equal. lia.
  - change (cast_s16 0) with 0. rewrite Z.add_0_r. apply cast_s16_id, Ha.
  - rewrite cast_s16_add_r. f_equal. lia.
  - rewrite cast_s16_add_r. f_equal.
  - rewrite cast_s16_sub_l.
    replace (value a + value b - value b) with (value a) by ring.
    apply cast_s16_id, Ha.
  - rewrite cast_s16_add_l.
    replace (value a - value b + value b) with (value a) by ring.
    apply cast_s16_id, Ha.
  - rewrite cast_s16_opp, Z.opp_involutive. apply cast_s16_id, Ha.
  - apply cast_s16_id, Ha.
Qed.

Lemma add_sub_neg_group_witness :
  sub (add (mk 32767) (mk 32767)) (mk 32767) = mk 32767
  /\ add (mk 32767) (mk 32767) = mk (-2).
Proof.
  assert (H : wf (mk 32767)) by solve_wf.
  destruct (add_sub_neg_group (mk 32767) (mk 32767) (mk 32767) H H H)
    as (_ & _ & _ & _ & _ & Hr & _).
  split; [exact Hr | reflexivity].
Defined.

(** X9.  Negation has two fixed points: besides zero, the most
    negative value -2048.0 is its own negation, because +2048.0 is not
    a 16-bit value; every other value and its negation have raw values
    that sum to zero. *)
Theorem neg_fixed_points (x : t) :
  wf x ->
  (neg x = x <-> value x = 0 \/ value x = -32768)
  /\ (value x <> -32768 -> value (neg x) = - value x)
  /\ neg (mk (-32768)) = mk (-32768).
Proof.
  intros Hx. unfold wf, in_s16 in Hx. unfold neg. repeat split.
  - intros H. apply (f_equal value) in H. cbn [value] in H.
    unfold cast_s16 in H. Z.div_mod_to_equations. lia.
  - intros H. apply value_inj. cbn [value]. unfold cast_s16.
    Z.div_mod_to_equations. lia.
  - intros H. cbn [value]. apply cast_s16_id. unfold in_s16. lia.
Qed.

Lemma neg_fixed_points_witness :
  wf (mk 24) /\ value (neg (mk 24)) = - 24.
Proof.
  assert (H : wf (mk 24)) by solve_wf.
  split; [exact H |].
  destruct (neg_fixed_points (mk 24) H) as (_ & Hn & _).
  apply Hn. simpl. lia.
Defined.

(** X10.  The six comparison operators agree with one order on the raw
    values: exactly one of [a < b], [a == b], [a > b] holds; [<=] is
    [<] or [==], [>=] is [>] or [==], [!=] is [<] or [>]; and [==]
    holds only between equal values. *)
Theorem comparisons_consistent (a b : t) :
  (lt a b = true /\ eq a b = false /\ gt a b = false
   \/ lt a b = false /\ eq a b = true /\ gt a b = false
   \/ lt a b = false /\ eq a b = false /\ gt a b = true)
  /\ le a b = lt a b || eq a b
  /\ ge a b = gt a b || eq a b
  /\ ne a b = lt a b || gt a b
  /\ (eq a b = true <-> a = b)
  /\ (le a b = true -> le b a = true -> a = b).
Proof.
  unfold le, ge, ne, gt, lt, eq.
  destruct (Z.ltb_spec (value a) (value b)) as [H1 | H1],
           (Z.ltb_spec (value b) (value a)) as [H2 | H2],
           (Z.eqb_spec (value a) (value b)) as [H3 | H3];
    try lia; simpl; repeat split; auto; intros; try discriminate;
    try (apply value_inj; assumption); try (subst; lia).
Qed.

Lemma comparisons_consistent_witness :
  le (mk (-1)) (mk 1) = true /\ ne (mk (-1)) (mk 1) = true.
Proof.
  destruct (comparisons_consistent (mk (-1)) (mk 1)) as (_ & Hle & _ & Hne & _).
  rewrite Hle, Hne. split; reflexivity.
Defined.

(** X11.  Multiplication is commutative, has [FromInt(1)] as its
    neutral element on both sides and [Zero()] as its absorbing
    element, and, truncating toward zero, it commutes with negation:
    [(-a) * b == -(a * b)] for every [a] other than the most negative
    value. *)
Theorem mul_laws (a b : t) :
  wf a -> wf b ->
  mul a b = mul b a
  /\ mul a (FromInt 1 0) = a
  /\ mul (FromInt 1 0) a = a
  /\ mul a Zero = Zero
  /\ (value a <> -32768 -> mul (neg a) b = neg (mul a b))
  /\ wf (mul a b).
Proof.
  intros Ha Hb. unfold wf in *.
  assert (H1 : mul a (FromInt 1 0) = a).
  { apply value_inj. unfold mul, Multiply. cbn [value].
    change (value (FromInt 1 0)) with 16.
    rewrite Z.quot_mul by lia. apply cast_s16_id, Ha. }
  assert (Hcomm : forall x y, mul x y = mul y x).
  { intros x y. unfold mul, Multiply. rewrite (Z.mul_comm (value x)).
    reflexivity. }
  split; [| split; [| split; [| split; [| split]]]].
  - apply Hcomm.
  - exact H1.
  - rewrite Hcomm. exact H1.
  - apply value_inj. unfold mul, Multiply, Zero. cbn [value].
    change (cast_s16 0) with 0. rewrite Z.mul_0_r. reflexivity.
  - intros Hmin. apply value_inj. unfold mul, Multiply, neg. cbn [value].
    rewrite (cast_s16_id (- value a)) by (unfold in_s16 in *; lia).
    rewrite cast_s16_opp, Z.mul_opp_l, Z.quot_opp_l by lia. reflexivity.
  - unfold mul, Multiply. apply cast_s16_range.
Qed.

Lemma mul_laws_witness :
  mul (neg (mk 3)) (mk 4) = neg (mul (mk 3) (mk 4))
  /\ mul (mk (-7)) (FromInt 1 0) = mk (-7).
Proof.
  assert (H3 : wf (mk 3)) by solve_wf.
  assert (H4 : wf (mk 4)) by solve_wf.
  assert (H7 : wf (mk (-7))) by solve_wf.
  destruct (mul_laws (mk 3) (mk 4) H3 H4) as (_ & _ & _ & _ & Hn & _).
  destruct (mul_laws (mk (-7)) (mk 4) H7 H4) as (_ & H1 & _).
  split; [apply Hn; simpl; lia | exact H1].
Defined.

(** X12.  Multiplying by an integral value loses nothing: for [m] in
    [-2048, 2047] the product [FromInt(m) * x] has the raw value
    [m * rawX] reduced to sixteen bits, and the product of two integral
    values is the integral value of the product. *)
Theorem mul_by_integer_exact (m n : Z) (x : t) :
  -2048 <= m <= 2047 -> -2048 <= n <= 2047 -> wf x ->
  value (mul (FromInt m 0) x) = cast_s16 (m * value x)
  /\ (in_s16 (m * value x) -> value (mul (FromInt m 0) x) = m * value x)
  /\ (in_s16 (m * n) -> mul (FromInt m 0) (FromInt n 0) = FromInt (m * n) 0).
Proof.
  intros Hm Hn Hx.
  assert (Hval : forall k, -2048 <= k <= 2047 -> value (FromInt k 0) = 16 * k).
  { intros k Hk. rewrite FromInt_general. change (0 mod 16) with 0.
    rewrite Z.add_0_r. apply cast_s16_id. unfold in_s16. lia. }
  assert (H1 : forall y, value (mul (FromInt m 0) y) = cast_s16 (m * value y)).
  { intros y. unfold mul, Multiply. cbn [value]. rewrite (Hval m Hm).
    replace (16 * m * value y) with (m * value y * 16) by ring.
    rewrite Z.quot_mul by lia. reflexivity. }
  repeat split.
  - apply H1.
  - intros Hr. rewrite H1. apply cast_s16_id, Hr.
  - intros _. apply value_inj. rewrite H1, (Hval n Hn), FromInt_general.
    change (0 mod 16) with 0. f_equal. ring.
Qed.

Lemma mul_by_integer_exact_witness :
  value (mul (FromInt (-3) 0) (mk 9)) = -27
  /\ mul (FromInt (-3) 0) (FromInt 5 0) = FromInt (-15) 0.
Proof.
  assert (Hx : wf (mk 9)) by solve_wf.
  destruct (mul_by_integer_exact (-3) 5 (mk 9)
              ltac:(lia) ltac:(lia) Hx) as (_ & H2 & H3).
  split.
  - apply H2. unfold in_s16. simpl. lia.
  - apply H3. unfold in_s16. lia.
Defined.

(** X13.  Division has a result exactly when the raw divisor is not
    zero, whatever the dividend (zero included); dividing by
    [FromInt(1)] returns the dividend, dividing a nonzero value by
    itself gives [FromInt(1)], and zero divided by a nonzero value is
    zero. *)
Theorem div_laws (a b : t) :
  wf a -> wf b ->
  (div a b = None <-> value b = 0)
  /\ div a (FromInt 1 0) = Some a
  /\ (value a <> 0 -> div a a = Some (FromInt 1 0))
  /\ (value b <> 0 -> div Zero b = Some Zero)
  /\ div Zero Zero = None.
Proof.
  intros Ha Hb. unfold wf in *. repeat split.
  - unfold div, Divide, int_div.
    destruct (Z.eqb_spec (value b) 0); [auto | discriminate].
  - intros H. unfold div, Divide, int_div. rewrite H. reflexivity.
  - unfold div, Divide, int_div. change (value (FromInt 1 0)) with 16.
    cbn [Z.eqb option_map]. rewrite Z.quot_mul by lia.
    rewrite (cast_s16_id _ Ha). f_equal. apply value_inj. reflexivity.
  - intros H. unfold div, Divide, int_div.
    destruct (Z.eqb_spec (value a) 0); [contradiction |].
    cbn [option_map]. rewrite (Z.mul_comm (value a)), Z.quot_mul by lia.
    reflexivity.
  - intros H. unfold div, Divide, int_div.
    destruct (Z.eqb_spec (value b) 0); [contradiction |].
    cbn [option_map]. change (value Zero) with 0.
    rewrite Z.mul_0_l, Z.quot_0_l by lia. reflexivity.
Qed.

Lemma div_laws_witness :
  div (mk (-40)) (mk (-40)) = Some (FromInt 1 0)
  /\ div Zero (mk 3) = Some Zero.
Proof.
  assert (Ha : wf (mk (-40))) by solve_wf.
  assert (Hb : wf (mk 3)) by solve_wf.
  destruct (div_laws (mk (-40)) (mk 3) Ha Hb) as (_ & _ & Hs & Hz & _).
  split; [apply Hs | apply Hz]; simpl; lia.
Defined.

(** X14.  Division undoes multiplication where nothing was truncated or
    wrapped: if [rawA * rawB] is a multiple of sixteen whose quotient
    fits sixteen bits and [b] is not zero, then [(a * b) / b == a]; and
    if [rawA * 16] is an exact multiple [q * rawB] with [q] a 16-bit
    value, then [a / b] has the raw value [q] and [(a / b) * b == a]. *)
Theorem mul_div_round_trip (a b : t) (q : Z) :
  wf a -> wf b -> value b <> 0 ->
  ((value a * value b) mod 16 = 0 -> in_s16 (value a * value b / 16) ->
   div (mul a b) b = Some a)
  /\ (in_s16 q -> value a * 16 = q * value b ->
      div a b = Some (mk q) /\ mul (mk q) b = a).
Proof.
  intros Ha Hb Hnz. unfold wf in *. split.
  - intros Hmod Hfit.
    assert (Hp : value a * value b = value a * value b / 16 * 16).
    { Z.div_mod_to_equations. lia. }
    assert (Hm : value (mul a b) = value a * value b / 16).
    { unfold mul, Multiply. cbn [value]. rewrite Hp at 1.
      rewrite Z.quot_mul by lia. apply cast_s16_id, Hfit. }
    unfold div, Divide, int_div. rewrite Hm, <- Hp.
    destruct (Z.eqb_spec (value b) 0); [contradiction |].
    cbn [option_map]. rewrite Z.quot_mul by lia.
    rewrite (cast_s16_id _ Ha). f_equal. apply value_inj. reflexivity.
  - intros Hq Heq. split.
    + unfold div, Divide, int_div.
      destruct (Z.eqb_spec (value b) 0); [contradiction |].
      cbn [option_map]. rewrite Heq, Z.quot_mul by lia.
      rewrite (cast_s16_id _ Hq). reflexivity.
    + apply value_inj. unfold mul, Multiply. cbn [value].
      rewrite <- Heq, Z.quot_mul by lia. apply cast_s16_id, Ha.
Qed.

Lemma mul_div_round_trip_witness :
  div (mul (mk 24) (mk (-8))) (mk (-8)) = Some (mk 24)
  /\ div (mk 24) (mk (-8)) = Some (mk (-48)).
Proof.
  assert (Ha : wf (mk 24)) by solve_wf.
  assert (Hb : wf (mk (-8))) by solve_wf.
  assert (Hnz : value (mk (-8)) <> 0) by (simpl; lia).
  destruct (mul_div_round_trip (mk 24) (mk (-8)) (-48) Ha Hb Hnz) as [H1 H2].
  split.
  - apply H1; [reflexivity | unfold in_s16; vm_compute; split; discriminate].
  - apply H2; [unfold in_s16; lia | reflexivity].
Defined.

(** Membership in a range counted up from its lower end. *)
Lemma in_count_up (len : nat) (lo n : Z) :
  lo <= n < lo + Z.of_nat len -> In n (Range.count_up lo len).
Proof.
  revert lo. induction len as [| len IH]; intros lo H.
  - simpl in H. lia.
  - simpl. destruct (Z.eq_dec lo n) as [-> | Hne]; [left; reflexivity |].
    right. apply IH. lia.
Qed.

Lemma forall_count_up (P : Z -> bool) (lo : Z) (len : nat) :
  forallb P (Range.count_up lo len) = true ->
  forall n, lo <= n < lo + Z.of_nat len -> P n = true.
Proof.
  intros Hall n Hn.
  rewrite forallb_forall in Hall. apply Hall, in_count_up, Hn.
Qed.

(** X15.  [FromFloat] inverts the reading of a raw value as a real
    number: for every 16-bit raw value [k], the float [k / 16] is
    converted to the raw value [k].  (All 65536 values are checked.) *)
Theorem fromfloat_of_sixteenths (k : Z) :
  in_s16 k -> FromFloat (Dyadic.sixteenths k) = Some (mk k).
Proof.
  intros Hk.
  pose (P := fun k : Z =>
    match FromFloat (Dyadic.sixteenths k) with
    | Some x => value x =? k
    | None => false
    end).
  assert (Hall : forallb P (Range.count_up (-32768) (Z.to_nat 65536)) = true)
    by (vm_compute; reflexivity).
  pose proof (forall_count_up P (-32768) (Z.to_nat 65536) Hall k
                ltac:(unfold in_s16 in Hk; lia)) as HP.
  unfold P in HP.
  destruct (FromFloat (Dyadic.sixteenths k)) as [x |]; [| discriminate].
  apply Z.eqb_eq in HP. f_equal. apply value_inj. exact HP.
Qed.

Lemma fromfloat_of_sixteenths_witness :
  in_s16 (-32768) /\ FromFloat (Dyadic.sixteenths (-32768)) = Some (mk (-32768)).
Proof.
  assert (H : in_s16 (-32768)) by (unfold in_s16; lia).
  split; [exact H | apply (fromfloat_of_sixteenths (-32768) H)].
Defined.

(** X16.  [FromFloat] rounds a tie away from zero: the float
    [(2k+1)/32], halfway between the raw values [k] and [k+1], is
    converted to [k+1] when it is positive and to [k] when it is
    negative.  (All ties between 16-bit raw values are checked.) *)
Theorem fromfloat_ties_away (k : Z) :
  -32768 <= k <= 32766 ->
  FromFloat (Dyadic.halfway k) = Some (mk (if 0 <=? k then k + 1 else k)).
Proof.
  intros Hk.
  pose (P := fun k : Z =>
    match FromFloat (Dyadic.halfway k) with
    | Some x => value x =? (if 0 <=? k then k + 1 else k)
    | None => false
    end).
  assert (Hall : forallb P (Range.count_up (-32768) (Z.to_nat 65535)) = true)
    by (vm_compute; reflexivity).
  pose proof (forall_count_up P (-32768) (Z.to_nat 65535) Hall k
                ltac:(lia)) as HP.
  unfold P in HP.
  destruct (FromFloat (Dyadic.halfway k)) as [x |]; [| discriminate].
  apply Z.eqb_eq in HP. f_equal. apply value_inj. exact HP.
Qed.

Lemma fromfloat_ties_away_witness :
  FromFloat (Dyadic.halfway (-3)) = Some (mk (-3))
  /\ FromFloat (Dyadic.halfway 2) = Some (mk 3).
Proof.
  split.
  - apply (fromfloat_ties_away (-3)). lia.
  - apply (fromfloat_ties_away 2). lia.
Defined.

End Fix12P4More.

(** ** Float<M,E>: what the decoding produces, order, arithmetic *)

Module FloatMore.
Import CInt CIntFacts BitFacts Float FloatFacts.

(** The 32-bit pattern that [FromRaw] builds from any raw value: only
    bit [M + E], the exponent field, the mantissa field and whether the
    low [M + E] bits are all clear enter it. *)
Lemma FromRaw_fields (M E hex : Z) :
  0 <= M <= 23 -> 1 <= E <= 8 ->
  FromRaw M E hex =
  mk (F32.bit_cast
        (if hex mod 2 ^ (M + E) =? 0
         then Z.b2z (Z.testbit hex (M + E)) * 2147483648
         else Z.b2z (Z.testbit hex (M + E)) * 2147483648
              + (spec_exponent M E hex + spec_bias E) * 8388608
              + spec_mantissa M hex * 2 ^ (23 - M))).
Proof.
  intros HM HE. unfold FromRaw.
  replace (M + E + 1 - 1) with (M + E) by ring.
  rewrite (land_mask hex (M + E)) by lia.
  rewrite shiftl31_u32, <- Z.testbit_odd, (Z.add_comm E M).
  assert (Hsb : (if Z.testbit hex (M + E) then 2147483648 else 0)
                = Z.b2z (Z.testbit hex (M + E)) * 2147483648)
    by (destruct (Z.testbit hex (M + E)); reflexivity).
  rewrite Hsb.
  destruct (hex mod 2 ^ (M + E) =? 0); cbn [negb]; [reflexivity |].
  destruct (bias_field E HE) as (Hb & Hbr & HpE).
  rewrite Hb, mantissa_field, exponent_field by lia.
  assert (HpM : 0 < 2 ^ M) by (apply Z.pow_pos_nonneg; lia).
  assert (Hp23 : 2 ^ M * 2 ^ (23 - M) = 8388608).
  { rewrite <- Z.pow_add_r by lia.
    replace (M + (23 - M)) with 23 by ring. reflexivity. }
  assert (Hm : 0 <= spec_mantissa M hex < 2 ^ M).
  { unfold spec_mantissa, field. apply Z.mod_pos_bound. exact HpM. }
  assert (He : 0 <= spec_exponent M E hex < 2 ^ E).
  { unfold spec_exponent, field. apply Z.mod_pos_bound. lia. }
  set (s := Z.b2z (Z.testbit hex (M + E))).
  assert (Hs : 0 <= s <= 1) by (unfold s; destruct (Z.testbit hex (M + E)); simpl; lia).
  set (m := spec_mantissa M hex) in *.
  set (e := spec_exponent M E hex) in *.
  set (bias := spec_bias E) in *.
  assert (Hmt : 0 <= m * 2 ^ (23 - M) < 8388608) by nia.
  rewrite (Z.shiftl_mul_pow2 m), (Z.shiftl_mul_pow2 (e + bias)) by lia.
  change (2 ^ 23) with 8388608.
  rewrite (cast_u32_id (m * 2 ^ (23 - M))) by (unfold in_u32; lia).
  rewrite (cast_u32_id ((e + bias) * 8388608)) by (unfold in_u32; lia).
  assert (Hlor :
            Z.lor (Z.lor (s * 2147483648) (m * 2 ^ (23 - M)))
                  ((e + bias) * 8388608)
            = s * 2147483648 + (e + bias) * 8388608 + m * 2 ^ (23 - M)).
  { rewrite <- Z.lor_assoc, (Z.lor_comm (m * 2 ^ (23 - M))).
    change 8388608 with (2 ^ 23) at 1.
    rewrite <- (Z.shiftl_mul_pow2 (e + bias)) by lia.
    rewrite lor_shiftl_add by (change (2 ^ 23) with 8388608; lia).
    change 2147483648 with (2 ^ 31) at 1.
    rewrite <- (Z.shiftl_mul_pow2 s) by lia.
    rewrite lor_shiftl_add;
      change (2 ^ 23) with 8388608; change (2 ^ 31) with 2147483648; lia. }
  rewrite Hlor, cast_u32_id by (unfold in_u32; lia).
  reflexivity.
Qed.

(** The float of a pattern whose exponent field is neither all zeros
    nor all ones: a normal number. *)
Lemma bit_cast_normal (s eb mt : Z) :
  0 <= s <= 1 -> 1 <= eb <= 254 -> 0 <= mt < 8388608 ->
  F32.bit_cast (s * 2147483648 + eb * 8388608 + mt)
  = S754_finite (s =? 1) (Z.to_pos (mt + 8388608)) (eb - 150).
Proof.
  intros Hs He Hm. unfold F32.bit_cast.
  set (x := s * 2147483648 + eb * 8388608 + mt).
  assert (Hsign : Z.testbit x 31 = (s =? 1)).
  { rewrite Z.testbit_odd, Z.shiftr_div_pow2 by lia.
    change (2 ^ 31) with 2147483648.
    replace (x / 2147483648) with s
      by (unfold x; Z.div_mod_to_equations; lia).
    assert (Hc : s = 0 \/ s = 1) by lia.
    destruct Hc as [-> | ->]; reflexivity. }
  assert (Hexp : Z.land (Z.shiftr x 23) 255 = eb).
  { change 255 with (Z.ones 8).
    rewrite Z.land_ones, Z.shiftr_div_pow2 by lia.
    change (2 ^ 23) with 8388608. change (2 ^ 8) with 256.
    unfold x. Z.div_mod_to_equations. lia. }
  assert (Hman : Z.land x 8388607 = mt).
  { change 8388607 with (Z.ones 23). rewrite Z.land_ones by lia.
    change (2 ^ 23) with 8388608. unfold x. Z.div_mod_to_equations. lia. }
  rewrite Hsign, Hexp, Hman.
  destruct (Z.eqb_spec eb 0); [lia |].
  destruct (Z.eqb_spec eb 255); [lia |].
  destruct (mt + 8388608) eqn:Hp; try lia. reflexivity.
Qed.

Lemma bit_cast_sign_only (s : Z) :
  0 <= s <= 1 -> F32.bit_cast (s * 2147483648) = S754_zero (s =? 1).
Proof.
  intros Hs. assert (Hc : s = 0 \/ s = 1) by lia.
  destruct Hc as [-> | ->]; reflexivity.
Qed.

(** Bounds on the fields at the widths that the code instantiates. *)
Lemma instance_bounds (M E : Z) :
  In (M, E) instances ->
  0 <= M <= 23 /\ 1 <= E <= 8
  /\ 64 <= spec_bias E /\ 2 ^ E + spec_bias E <= 192.
Proof.
  intros Hin. simpl in Hin.
  destruct Hin as [H | [H | [H | []]]]; inversion H; subst;
    unfold spec_bias; simpl; lia.
Qed.

(** The float that [FromRaw] returns, in terms of the fields. *)
Lemma FromRaw_value (M E hex : Z) :
  In (M, E) instances ->
  value (FromRaw M E hex) =
  if hex mod 2 ^ (M + E) =? 0
  then S754_zero (Z.testbit hex (M + E))
  else S754_finite (Z.testbit hex (M + E))
         (Z.to_pos (spec_mantissa M hex * 2 ^ (23 - M) + 8388608))
         (spec_exponent M E hex + spec_bias E - 150).
Proof.
  intros Hin.
  destruct (instance_bounds M E Hin) as (HM & HE & Hb1 & Hb2).
  rewrite (FromRaw_fields M E hex HM HE). cbn [value].
  assert (Hs : 0 <= Z.b2z (Z.testbit hex (M + E)) <= 1)
    by (destruct (Z.testbit hex (M + E)); simpl; lia).
  assert (Hsb : (Z.b2z (Z.testbit hex (M + E)) =? 1) = Z.testbit hex (M + E))
    by (destruct (Z.testbit hex (M + E)); reflexivity).
  destruct (hex mod 2 ^ (M + E) =? 0).
  - rewrite bit_cast_sign_only, Hsb by exact Hs. reflexivity.
  - assert (HpM : 0 < 2 ^ M) by (apply Z.pow_pos_nonneg; lia).
    assert (Hp23 : 2 ^ M * 2 ^ (23 - M) = 8388608).
    { rewrite <- Z.pow_add_r by lia.
      replace (M + (23 - M)) with 23 by ring. reflexivity. }
    assert (Hm : 0 <= spec_mantissa M hex < 2 ^ M).
    { unfold spec_mantissa, field. apply Z.mod_pos_bound. exact HpM. }
    assert (He : 0 <= spec_exponent M E hex < 2 ^ E).
    { unfold spec_exponent, field. apply Z.mod_pos_bound.
      apply Z.pow_pos_nonneg; lia. }
    rewrite bit_cast_normal, Hsb; try lia; try reflexivity. nia.
Qed.

(** Reducing modulo a product and then modulo a factor. *)
Lemma mod_mul_mod (x a b : Z) : 0 < a -> 0 < b -> (x mod (a * b)) mod a = x mod a.
Proof.
  intros Ha Hb. rewrite Z.rem_mul_r by lia.
  replace (x mod a + a * ((x / a) mod b))
    with (x mod a + (x / a) mod b * a) by ring.
  rewrite Z.mod_add by lia. apply Z.mod_mod. lia.
Qed.

Lemma mod_mul_div (x a b : Z) : 0 < a -> 0 < b -> (x mod (a * b)) / a = (x / a) mod b.
Proof.
  intros Ha Hb. rewrite Z.rem_mul_r by lia.
  replace (x mod a + a * ((x / a) mod b))
    with (x mod a + (x / a) mod b * a) by ring.
  rewrite Z.div_add by lia.
  rewrite (Z.div_small (x mod a)) by (apply Z.mod_pos_bound; lia). lia.
Qed.

(** The fields of a raw value do not depend on the bits above the
    sign bit. *)
Lemma fields_ignore_high_bits (M E hex : Z) :
  0 <= M -> 0 <= E ->
  let low := hex mod 2 ^ (M + E + 1) in
  low mod 2 ^ (M + E) = hex mod 2 ^ (M + E)
  /\ Z.testbit low (M + E) = Z.testbit hex (M + E)
  /\ spec_mantissa M low = spec_mantissa M hex
  /\ spec_exponent M E low = spec_exponent M E hex.
Proof.
  intros HM HE low. unfold low, spec_mantissa, spec_exponent, field.
  assert (HpM : 0 < 2 ^ M) by (apply Z.pow_pos_nonneg; lia).
  assert (HpE : 0 < 2 ^ E) by (apply Z.pow_pos_nonneg; lia).
  assert (HpME : 0 < 2 ^ (M + E)) by (apply Z.pow_pos_nonneg; lia).
  repeat split.
  - rewrite (Z.pow_add_r 2 (M + E) 1), Z.pow_1_r by lia.
    apply mod_mul_mod; lia.
  - apply Z.mod_pow2_bits_low. lia.
  - rewrite Z.pow_0_r, !Z.div_1_r.
    replace (M + E + 1) with (M + (E + 1)) by ring.
    rewrite (Z.pow_add_r 2 M (E + 1)) by lia.
    apply mod_mul_mod; [lia | apply Z.pow_pos_nonneg; lia].
  - replace (M + E + 1) with (M + (E + 1)) by ring.
    rewrite (Z.pow_add_r 2 M (E + 1)) by lia.
    rewrite mod_mul_div by (lia || apply Z.pow_pos_nonneg; lia).
    rewrite (Z.pow_add_r 2 E 1), Z.pow_1_r by lia.
    apply mod_mul_mod; lia.
Qed.

(** The fields of a raw value below the sign bit. *)
Lemma fields_below_sign (M E hex : Z) :
  0 <= M -> 0 <= E -> 0 <= hex < 2 ^ (M + E) ->
  hex mod 2 ^ (M + E) = hex
  /\ Z.testbit hex (M + E) = false
  /\ Z.testbit (hex + 2 ^ (M + E)) (M + E) = true
  /\ hex = 2 ^ M * spec_exponent M E hex + spec_mantissa M hex
  /\ 0 <= spec_mantissa M hex < 2 ^ M
  /\ 0 <= spec_exponent M E hex < 2 ^ E.
Proof.
  intros HM HE Hhex. unfold spec_mantissa, spec_exponent, field.
  assert (HpM : 0 < 2 ^ M) by (apply Z.pow_pos_nonneg; lia).
  assert (HpE : 0 < 2 ^ E) by (apply Z.pow_pos_nonneg; lia).
  assert (HpME : 0 < 2 ^ (M + E)) by (apply Z.pow_pos_nonneg; lia).
  rewrite Z.pow_0_r, Z.div_1_r.
  assert (Hq : hex / 2 ^ M < 2 ^ E).
  { apply Z.div_lt_upper_bound; [lia |].
    rewrite <- Z.pow_add_r by lia. lia. }
  assert (Hq0 : 0 <= hex / 2 ^ M) by (apply Z.div_pos; lia).
  rewrite (Z.mod_small (hex / 2 ^ M)) by lia.
  split; [apply Z.mod_small; lia |].
  split.
  { rewrite Z.testbit_odd, Z.shiftr_div_pow2, Z.div_small by lia. reflexivity. }
  split.
  { rewrite Z.testbit_odd, Z.shiftr_div_pow2 by lia.
    replace (hex + 2 ^ (M + E)) with (hex + 1 * 2 ^ (M + E)) by ring.
    rewrite Z.div_add, Z.div_small by lia. reflexivity. }
  split; [apply Z.div_mod; lia |].
  split; [apply Z.mod_pos_bound; lia | lia].
Qed.

(** X17.  Decoded value.  At each of the three widths, a raw value with
    a bit set below the sign bit decodes to the normal binary32 number
    [(-1)^sign * (2^23 + mantissa * 2^(23-M)) * 2^(exponent + bias -
    150)], that is [(-1)^sign * (1 + mantissa / 2^M) * 2^(exponent -
    (2^(E-1) - 1))]: the significand keeps its hidden one, and an
    exponent field of zero is not treated as a subnormal. *)
Theorem FromRaw_decoded_value (M E hex : Z) :
  In (M, E) instances -> in_u32 hex -> hex mod 2 ^ (M + E) <> 0 ->
  exists p : positive,
    value (FromRaw M E hex)
    = S754_finite (Z.testbit hex (M + E)) p
                  (spec_exponent M E hex - (2 ^ (E - 1) - 1) - 23)
    /\ Zpos p = 8388608 + spec_mantissa M hex * 2 ^ (23 - M)
    /\ 8388608 <= Zpos p < 16777216.
Proof.
  intros Hin _ Hlow.
  destruct (instance_bounds M E Hin) as (HM & HE & _).
  rewrite (FromRaw_value M E hex Hin).
  destruct (Z.eqb_spec (hex mod 2 ^ (M + E)) 0) as [H0 | _]; [contradiction |].
  assert (HpM : 0 < 2 ^ M) by (apply Z.pow_pos_nonneg; lia).
  assert (Hp23 : 2 ^ M * 2 ^ (23 - M) = 8388608).
  { rewrite <- Z.pow_add_r by lia.
    replace (M + (23 - M)) with 23 by ring. reflexivity. }
  assert (Hm : 0 <= spec_mantissa M hex < 2 ^ M).
  { unfold spec_mantissa, field. apply Z.mod_pos_bound. exact HpM. }
  exists (Z.to_pos (spec_mantissa M hex * 2 ^ (23 - M) + 8388608)).
  rewrite Z2Pos.id by nia. split; [| split; [ring | nia]].
  f_equal. unfold spec_bias. ring.
Qed.

Lemma FromRaw_decoded_value_witness :
  exists p : positive,
    value (FromRaw 10 5 1) = S754_finite false p (0 - (2 ^ (5 - 1) - 1) - 23)
    /\ Zpos p = 8388608 + 1 * 2 ^ (23 - 10).
Proof.
  destruct (FromRaw_decoded_value 10 5 1) as (p & Hv & Hp & _).
  - simpl. auto.
  - unfold in_u32. lia.
  - vm_compute. discriminate.
  - exists p. split; [exact Hv | exact Hp].
Defined.

(** X18.  At each of the three widths [FromRaw] never produces a NaN,
    an infinity or a subnormal number, whatever 32-bit value it is
    given: the result is a zero, exactly when the low [M + E] bits are
    clear, or a normal number with a 24-bit significand and a binary
    exponent within [-63, 64]. *)
Theorem FromRaw_zero_or_normal (M E hex : Z) :
  In (M, E) instances -> in_u32 hex ->
  match value (FromRaw M E hex) with
  | S754_zero _ => hex mod 2 ^ (M + E) = 0
  | S754_finite _ m e =>
      hex mod 2 ^ (M + E) <> 0
      /\ 8388608 <= Zpos m < 16777216 /\ -63 <= e + 23 <= 64
  | S754_infinity _ | S754_nan => False
  end.
Proof.
  intros Hin _.
  destruct (instance_bounds M E Hin) as (HM & HE & Hb1 & Hb2).
  rewrite (FromRaw_value M E hex Hin).
  destruct (Z.eqb_spec (hex mod 2 ^ (M + E)) 0) as [H0 | Hn]; [exact H0 |].
  assert (HpM : 0 < 2 ^ M) by (apply Z.pow_pos_nonneg; lia).
  assert (Hp23 : 2 ^ M * 2 ^ (23 - M) = 8388608).
  { rewrite <- Z.pow_add_r by lia.
    replace (M + (23 - M)) with 23 by ring. reflexivity. }
  assert (Hm : 0 <= spec_mantissa M hex < 2 ^ M).
  { unfold spec_mantissa, field. apply Z.mod_pos_bound. exact HpM. }
  assert (He : 0 <= spec_exponent M E hex < 2 ^ E).
  { unfold spec_exponent, field. apply Z.mod_pos_bound.
    apply Z.pow_pos_nonneg; lia. }
  rewrite Z2Pos.id by nia. split; [exact Hn |]. split; [nia | lia].
Qed.

Lemma FromRaw_zero_or_normal_witness :
  match value (FromRaw 16 7 4294967295) with
  | S754_finite _ m e => 8388608 <= Zpos m < 16777216 /\ -63 <= e + 23 <= 64
  | _ => False
  end.
Proof.
  pose proof (FromRaw_zero_or_normal 16 7 4294967295) as H.
  assert (Hin : In (16, 7) instances) by (simpl; auto).
  assert (Hu : in_u32 4294967295) by (unfold in_u32; lia).
  specialize (H Hin Hu).
  destruct (value (FromRaw 16 7 4294967295)); try contradiction.
  - discriminate H.
  - apply H.
Defined.

(** X19.  [FromRaw] ignores every bit above the sign bit: at each of
    the three widths a 32-bit value decodes like its low [M + E + 1]
    bits. *)
Theorem FromRaw_ignores_high_bits (M E hex : Z) :
  In (M, E) instances -> in_u32 hex ->
  FromRaw M E hex = FromRaw M E (hex mod 2 ^ (M + E + 1)).
Proof.
  intros Hin _.
  destruct (instance_bounds M E Hin) as (HM & HE & _).
  destruct (fields_ignore_high_bits M E hex) as (H1 & H2 & H3 & H4); try lia.
  rewrite (FromRaw_fields M E hex), (FromRaw_fields M E (hex mod 2 ^ (M + E + 1)))
    by lia.
  rewrite H1, H2, H3, H4. reflexivity.
Qed.

Lemma FromRaw_ignores_high_bits_witness :
  FromRaw 10 5 4294917120 = FromRaw 10 5 15360.
Proof.
  apply (FromRaw_ignores_high_bits 10 5 4294917120).
  - simpl. auto.
  - unfold in_u32. lia.
Defined.

(** X20.  Setting the sign bit negates: at each of the three widths,
    for a raw value [hex] below the sign bit, [FromRaw(hex | sign bit)]
    is [-FromRaw(hex)], the zero included. *)
Theorem FromRaw_sign_bit_negates (M E hex : Z) :
  In (M, E) instances -> 0 <= hex < 2 ^ (M + E) ->
  FromRaw M E (hex + 2 ^ (M + E)) = neg (FromRaw M E hex)
  /\ Z.lor hex (2 ^ (M + E)) = hex + 2 ^ (M + E).
Proof.
  intros Hin Hhex.
  destruct (instance_bounds M E Hin) as (HM & HE & _).
  destruct (fields_below_sign M E hex) as (H1 & H2 & H3 & _); try lia.
  assert (HpM : 0 < 2 ^ M) by (apply Z.pow_pos_nonneg; lia).
  assert (HpE : 0 < 2 ^ E) by (apply Z.pow_pos_nonneg; lia).
  assert (HpME : 2 ^ (M + E) = 2 ^ M * 2 ^ E) by (apply Z.pow_add_r; lia).
  split.
  - pose proof (FromRaw_value M E hex Hin) as Hv.
    pose proof (FromRaw_value M E (hex + 2 ^ (M + E)) Hin) as Hv'.
    assert (Hlow : (hex + 2 ^ (M + E)) mod 2 ^ (M + E) = hex mod 2 ^ (M + E)).
    { replace (hex + 2 ^ (M + E)) with (hex + 1 * 2 ^ (M + E)) by ring.
      apply Z.mod_add. lia. }
    assert (Hman : spec_mantissa M (hex + 2 ^ (M + E)) = spec_mantissa M hex).
    { unfold spec_mantissa, field. rewrite Z.pow_0_r, !Z.div_1_r, HpME.
      replace (hex + 2 ^ M * 2 ^ E) with (hex + 2 ^ E * 2 ^ M) by ring.
      apply Z.mod_add. lia. }
    assert (Hexp : spec_exponent M E (hex + 2 ^ (M + E)) = spec_exponent M E hex).
    { unfold spec_exponent, field. rewrite HpME.
      replace (hex + 2 ^ M * 2 ^ E) with (hex + 2 ^ E * 2 ^ M) by ring.
      rewrite Z.div_add by lia.
      replace (hex / 2 ^ M + 2 ^ E) with (hex / 2 ^ M + 1 * 2 ^ E) by ring.
      apply Z.mod_add. lia. }
    rewrite Hlow, Hman, Hexp, H3 in Hv'. rewrite H2 in Hv.
    unfold neg, ToFloat32, FromFloat32.
    destruct (FromRaw M E (hex + 2 ^ (M + E))) as [v'].
    cbn [value] in Hv'. rewrite Hv', Hv.
    destruct (hex mod 2 ^ (M + E) =? 0); reflexivity.
  - rewrite Z.lor_comm.
    replace (2 ^ (M + E)) with (Z.shiftl 1 (M + E)) at 1
      by (rewrite Z.shiftl_mul_pow2 by lia; ring).
    rewrite lor_shiftl_add by lia. ring.
Qed.

Lemma FromRaw_sign_bit_negates_witness :
  FromRaw 12 7 (258048 + 2 ^ (12 + 7)) = neg (FromRaw 12 7 258048).
Proof.
  apply (FromRaw_sign_bit_negates 12 7 258048).
  - simpl. auto.
  - simpl. lia.
Defined.

(** X21.  Below the sign bit the raw values are ordered like the
    floats they decode to: at each of the three widths, for raw values
    [h1 < h2] without the sign bit, [FromRaw(h1) < FromRaw(h2)] holds
    and [FromRaw(h1) == FromRaw(h2)] does not, so that decoding is
    one-to-one there. *)
Theorem FromRaw_monotone (M E h1 h2 : Z) :
  In (M, E) instances -> 0 <= h1 -> h1 < h2 -> h2 < 2 ^ (M + E) ->
  lt (FromRaw M E h1) (FromRaw M E h2) = true
  /\ eq (FromRaw M E h1) (FromRaw M E h2) = false
  /\ FromRaw M E h1 <> FromRaw M E h2.
Proof.
  intros Hin H0 H12 H2.
  destruct (instance_bounds M E Hin) as (HM & HE & _).
  destruct (fields_below_sign M E h1) as (L1 & S1 & _ & D1 & M1 & E1); try lia.
  destruct (fields_below_sign M E h2) as (L2 & S2 & _ & D2 & M2 & E2); try lia.
  assert (HpM : 0 < 2 ^ M) by (apply Z.pow_pos_nonneg; lia).
  assert (Hp23 : 0 < 2 ^ (23 - M)) by (apply Z.pow_pos_nonneg; lia).
  assert (Hcmp : SFcompare (value (FromRaw M E h1)) (value (FromRaw M E h2))
                 = Some Lt).
  { rewrite !(FromRaw_value M E _ Hin), L1, L2, S1, S2.
    destruct (Z.eqb_spec h2 0) as [? | _]; [lia |].
    destruct (Z.eqb_spec h1 0) as [_ | Hn1]; [reflexivity |].
    set (m1 := spec_mantissa M h1) in *. set (m2 := spec_mantissa M h2) in *.
    set (e1 := spec_exponent M E h1) in *. set (e2 := spec_exponent M E h2) in *.
    cbn [SFcompare].
    destruct (Z.compare_spec (e1 + spec_bias E - 150) (e2 + spec_bias E - 150))
      as [He | He | He].
    - assert (Hm : m1 < m2) by nia.
      f_equal. change (Pos.compare_cont Eq ?p ?q) with (Pos.compare p q).
      apply Pos.compare_lt_iff.
      assert (Hp : 0 <= m1 * 2 ^ (23 - M) < m2 * 2 ^ (23 - M)) by nia.
      lia.
    - reflexivity.
    - exfalso. nia. }
  assert (Hlt : lt (FromRaw M E h1) (FromRaw M E h2) = true)
    by (unfold lt, ToFloat32, SFltb; rewrite Hcmp; reflexivity).
  split; [exact Hlt |]. split.
  - unfold eq, ToFloat32, SFeqb. rewrite Hcmp. reflexivity.
  - intros Heq. rewrite Heq in Hcmp.
    destruct (value (FromRaw M E h2)) as [s | s | | s m e]; simpl in Hcmp.
    + discriminate.
    + destruct s; discriminate.
    + discriminate.
    + destruct s; rewrite Z.compare_refl, Pos.compare_cont_refl in Hcmp;
        discriminate.
Qed.

Lemma FromRaw_monotone_witness :
  lt (FromRaw 16 7 0) (FromRaw 16 7 1) = true
  /\ lt (FromRaw 16 7 65535) (FromRaw 16 7 65536) = true.
Proof.
  assert (Hin : In (16, 7) instances) by (simpl; auto).
  split.
  - apply (FromRaw_monotone 16 7 0 1 Hin); simpl; lia.
  - apply (FromRaw_monotone 16 7 65535 65536 Hin); simpl; lia.
Defined.

(** Swapping the operands of a float comparison reverses its outcome. *)
Lemma SFcompare_swap (x y : spec_float) :
  SFcompare y x = option_map CompOpp (SFcompare x y).
Proof.
  destruct x as [sx | sx | | sx mx ex], y as [sy | sy | | sy my ey];
    try reflexivity;
    try (destruct sx; reflexivity); try (destruct sy; reflexivity);
    try (destruct sx, sy; reflexivity).
  destruct sx, sy; try reflexivity; simpl;
    rewrite (Z.compare_antisym ex ey);
    destruct (ex ?= ey); simpl; try reflexivity;
    rewrite Pos.compare_cont_antisym, ?CompOpp_involutive; reflexivity.
Qed.

Lemma SFcompare_nan (x y : spec_float) :
  SFcompare x y = None <-> F32.isnan x || F32.isnan y = true.
Proof.
  destruct x as [sx | sx | | sx mx ex], y as [sy | sy | | sy my ey];
    simpl; split; intros H; try reflexivity; try discriminate;
    try (destruct sx; discriminate); try (destruct sy; discriminate);
    try (destruct sx, sy; discriminate).
Qed.

(** X22.  The comparisons of [Float<M,E>] are those of the stored
    floats.  If an operand is NaN, [<], [>], [<=], [>=] and [==] are all
    false and [!=] is true.  Otherwise exactly one of [<], [==], [>]
    holds, [<=] is [<] or [==], [>=] is [>] or [==] and [!=] is [<] or
    [>].  The two zeros compare equal. *)
Theorem float_comparisons (M E : Z) (a b : t M E) :
  (F32.isnan (value a) || F32.isnan (value b) = true ->
   lt a b = false /\ gt a b = false /\ le a b = false /\ ge a b = false
   /\ eq a b = false /\ ne a b = true)
  /\ (F32.isnan (value a) || F32.isnan (value b) = false ->
      (lt a b = true /\ eq a b = false /\ gt a b = false
       \/ lt a b = false /\ eq a b = true /\ gt a b = false
       \/ lt a b = false /\ eq a b = false /\ gt a b = true)
      /\ le a b = lt a b || eq a b
      /\ ge a b = gt a b || eq a b
      /\ ne a b = lt a b || gt a b)
  /\ eq (M := M) (E := E) (FromFloat32 F32.pos_zero) (FromFloat32 F32.neg_zero)
     = true.
Proof.
  unfold lt, gt, le, ge, eq, ne, ToFloat32, SFltb, SFleb, SFeqb.
  rewrite (SFcompare_swap (value a) (value b)).
  split; [| split; [| reflexivity]].
  - intros Hnan. apply SFcompare_nan in Hnan. rewrite Hnan. simpl.
    repeat split.
  - intros Hnan.
    destruct (SFcompare (value a) (value b)) as [c |] eqn:Hc.
    + destruct c; simpl; repeat split; auto.
    + apply SFcompare_nan in Hc. congruence.
Qed.

Lemma float_comparisons_witness :
  ne (M := 16) (E := 7) (FromFloat32 F32.nan) (FromFloat32 F32.nan) = true
  /\ le (M := 16) (E := 7) (FromFloat32 F32.half) (FromFloat32 F32.sixteen)
     = true.
Proof.
  destruct (float_comparisons 16 7 (FromFloat32 F32.nan) (FromFloat32 F32.nan))
    as (Hn & _).
  destruct (float_comparisons 16 7 (FromFloat32 F32.half)
              (FromFloat32 F32.sixteen)) as (_ & Ho & _).
  split.
  - apply Hn. reflexivity.
  - destruct (Ho ltac:(reflexivity)) as (_ & Hle & _).
    rewrite Hle. reflexivity.
Defined.

Lemma F32_mul_comm (x y : spec_float) : F32.mul x y = F32.mul y x.
Proof.
  unfold F32.mul.
  destruct x as [sx | sx | | sx mx ex], y as [sy | sy | | sy my ey];
    simpl; try reflexivity; rewrite (xorb_comm sx sy); try reflexivity.
  rewrite (Pos.mul_comm mx my), (Z.add_comm ex ey). reflexivity.
Qed.

Lemma forced_zero_comm (x y : spec_float) : forced_zero x y = forced_zero y x.
Proof. unfold forced_zero. apply orb_comm. Qed.

(** X23.  Multiplication is commutative, the forced zero included. *)
Theorem float_mul_comm (M E : Z) (a b : t M E) : mul a b = mul b a.
Proof.
  unfold mul, ToFloat32.
  rewrite (forced_zero_comm (value a)), (F32_mul_comm (value a)).
  reflexivity.
Qed.

(** Rounding a non-negative significand never produces a NaN. *)
Lemma iter_pos_invariant {A : Type} (P : A -> Prop) (f : A -> A) :
  (forall x, P x -> P (f x)) -> forall n x, P x -> P (iter_pos f n x).
Proof.
  intros Hf. induction n as [n IH | n IH |]; intros x Hx; simpl; auto.
Qed.

Lemma shr_1_nonneg (mrs : shr_record) : 0 <= shr_m mrs -> 0 <= shr_m (shr_1 mrs).
Proof.
  destruct mrs as [m r s]. simpl.
  destruct m as [| p | p]; [simpl; lia | | lia].
  intros _. destruct p; simpl; lia.
Qed.

Lemma shr_fexp_nonneg (prec emax m e : Z) (l : location) :
  0 <= m -> 0 <= shr_m (fst (shr_fexp prec emax m e l)).
Proof.
  intros Hm. unfold shr_fexp, shr.
  assert (H0 : 0 <= shr_m (shr_record_of_loc m l))
    by (destruct l as [| c]; [| destruct c]; exact Hm).
  destruct (fexp prec emax (Zdigits2 m + e) - e) as [| p | p]; simpl;
    try exact H0.
  apply (iter_pos_invariant (fun r => 0 <= shr_m r)); [| exact H0].
  apply shr_1_nonneg.
Qed.

Lemma round_nearest_even_nonneg (m : Z) (l : location) :
  0 <= m -> 0 <= round_nearest_even m l.
Proof.
  intros Hm. destruct l as [| c]; [exact Hm |].
  destruct c; simpl; try destruct (Z.even m); lia.
Qed.

Lemma binary_round_aux_not_nan (prec emax : Z) (s : bool) (m : positive) (e : Z) :
  F32.isnan (binary_round_aux prec emax s (Zpos m) e loc_Exact) = false.
Proof.
  unfold binary_round_aux.
  pose proof (shr_fexp_nonneg prec emax (Zpos m) e loc_Exact ltac:(lia)) as H1.
  destruct (shr_fexp prec emax (Zpos m) e loc_Exact) as [mrs' e'].
  cbn [fst] in H1.
  pose proof (shr_fexp_nonneg prec emax
                (round_nearest_even (shr_m mrs') (loc_of_shr_record mrs'))
                e' loc_Exact
                (round_nearest_even_nonneg _ _ H1)) as H2.
  destruct (shr_fexp prec emax
              (round_nearest_even (shr_m mrs') (loc_of_shr_record mrs'))
              e' loc_Exact) as [mrs'' e''].
  cbn [fst] in H2.
  destruct (shr_m mrs'') as [| p | p]; [reflexivity | | lia].
  destruct (e'' <=? emax - prec); reflexivity.
Qed.

(** X24.  The product of two operands that are not NaN is never NaN:
    the one product that binary32 leaves undefined, zero times infinity,
    is forced to zero. *)
Theorem float_mul_not_nan (M E : Z) (a b : t M E) :
  F32.isnan (value a) = false -> F32.isnan (value b) = false ->
  F32.isnan (value (mul a b)) = false.
Proof.
  intros Ha Hb. unfold mul, ToFloat32. rewrite forced_zero_classes, Ha, Hb.
  destruct (value a) as [sa | sa | | sa ma ea]; try discriminate;
    destruct (value b) as [sb | sb | | sb mb eb]; try discriminate;
    simpl; try reflexivity.
  apply binary_round_aux_not_nan.
Qed.

Lemma float_mul_not_nan_witness :
  F32.isnan (value (mul (M := 12) (E := 7) (FromFloat32 F32.infinity)
                        (FromFloat32 F32.neg_zero))) = false.
Proof.
  apply (float_mul_not_nan 12 7 (FromFloat32 F32.infinity)
           (FromFloat32 F32.neg_zero)); reflexivity.
Defined.

Lemma F32_sub_add_opp (x y : spec_float) : F32.sub x y = F32.add x (SFopp y).
Proof.
  unfold F32.sub, F32.add.
  destruct x as [sx | sx | | sx mx ex], y as [sy | sy | | sy my ey];
    try reflexivity;
    destruct sx, sy; reflexivity.
Qed.

(** X25.  Subtraction is addition of the negation, [a - b] being
    [a + (-b)] for all operands, and negating twice returns the operand. *)
Theorem float_sub_is_add_neg (M E : Z) (a b : t M E) :
  sub a b = add a (neg b) /\ neg (neg a) = a.
Proof.
  split.
  - unfold sub, add, neg, ToFloat32, FromFloat32. cbn [value].
    rewrite F32_sub_add_opp. reflexivity.
  - unfold neg, ToFloat32, FromFloat32. cbn [value].
    destruct a as [v]. cbn [value]. f_equal.
    destruct v as [s | s | | s m e]; simpl; rewrite ?negb_involutive;
      reflexivity.
Qed.

End FloatMore.
